(** * The map popup wrapper [DrawPopup] and the table storage helpers

    A shallow embedding of two pieces of the repository:

    - the React component [DrawPopup], which keeps a [mapboxgl.Popup]
      pinned to a coordinate of a map and recomputes its offset and
      anchor on every map movement;
    - [tableStorageGetter] / [tableStorageSetter], which keep the UI
      state of a table under a key prefix of a browser storage.

    JavaScript numbers are IEEE 754 doubles, modelled by the kernel's
    primitive floats; objects used as maps are finite maps over their
    own string-keyed properties; code that mutates [this], the DOM or a
    map's listeners is written in a state-and-exception monad.  Of the two
    variants of the component in the repository, the one embedded is the
    one with [_setMap], [_removeMap] and [_remove].  The libraries the
    code calls are not part of the repository: the popup of mapbox-gl is
    an interface, the event emitter of a map, the DOM and the animation
    frames of the browser are small models, and lodash [get] and [set] are
    modelled after lodash 4.17.21 on the own properties of plain objects
    and strings; what a value inherits from the prototypes of the runtime
    is outside the model. *)

From Stdlib Require Import PrimFloat.
From Stdlib Require Uint63 DecimalString.
From stdpp Require Import base option list strings gmap.

Set Warnings "-register-all".

(** ** JavaScript numbers and exceptions *)

Module Js.

Abbreviation number := float.

(** [a > b] and [a < b] on numbers: false as soon as one side is NaN. *)
Definition gt (a b : number) : bool := PrimFloat.ltb b a.
Definition lt (a b : number) : bool := PrimFloat.ltb a b.

(** Falsy numbers are [0], [-0] and [NaN]. *)
Definition number_truthy (a : number) : bool :=
  negb (PrimFloat.eqb a 0%float) && PrimFloat.eqb a a.

Inductive Error : Type :=
| TypeError      (* property read of null/undefined, value not iterable *)
| NotFoundError  (* DOMException of removeChild *)
| LibraryError.  (* an exception raised inside a third-party library *)

Inductive Completion (A : Type) : Type :=
| Ok (a : A)
| Throw (e : Error).
Arguments Ok {A} a.
Arguments Throw {A} e.

End Js.

(** ** The popup wrapper *)

Module DrawPopup.
Import Js.

Definition DEFAULT_MAX_WIDTH : string := "260px".
Definition ANCHOR_DELIMITER : string := "-".

(** Values that travel through [props.location] and the popup options. *)
Inductive JsVal : Type :=
| VUndefined
| VNull
| VBool (b : bool)
| VNum (a : number)
| VStr (s : string)
| VArr (elems : list JsVal)
| VObj (fields : list (string * JsVal)).

Definition truthy (v : JsVal) : bool :=
  match v with
  | VUndefined | VNull => false
  | VBool b => b
  | VNum a => number_truthy a
  | VStr s => negb (String.eqb s EmptyString)
  | VArr _ | VObj _ => true
  end.

(** [a !== b] where [a] is a number or [undefined] (the only shapes of a
    coordinate read back from the popup).  An array or an object on the
    right is a reference and never identical to such a primitive. *)
Definition strictEquals (a b : JsVal) : bool :=
  match a, b with
  | VUndefined, VUndefined => true
  | VNull, VNull => true
  | VBool p, VBool q => Bool.eqb p q
  | VNum p, VNum q => PrimFloat.eqb p q
  | VStr p, VStr q => String.eqb p q
  | _, _ => false
  end.

Definition strictNotEquals (a b : JsVal) : bool := negb (strictEquals a b).

(** [Array.prototype.join] on an array of strings. *)
Definition join (l : list string) (sep : string) : string := String.concat sep l.

Module Point.
Record t : Type := mk { x : number; y : number }.
End Point.

Module DOMRect.
Record t : Type := mk { x : number; y : number }.
End DOMRect.

Module LngLat.
Record t : Type := mk { lng : number; lat : number }.
End LngLat.

(** What the wrapper reads of a DOM element. *)
Record Element : Type := mkElement { offsetWidth : number; offsetHeight : number }.

Abbreviation MapId := nat.
Abbreviation NodeId := nat.

(** The fields of a [mapboxgl.Popup] the wrapper touches. *)
Module Popup.
Record t : Type := mk {
  _container : option Element;
  _content : option Element;
  _tip : option Element;
  _map : option MapId;
  _lngLat : option LngLat.t;
  _pos : option Point.t;
  options : gmap string JsVal
}.

Definition set_container (e : option Element) (p : t) : t :=
  mk e (_content p) (_tip p) (_map p) (_lngLat p) (_pos p) (options p).

Definition set_content (e : option Element) (p : t) : t :=
  mk (_container p) e (_tip p) (_map p) (_lngLat p) (_pos p) (options p).

Definition set_tip (e : option Element) (p : t) : t :=
  mk (_container p) (_content p) e (_map p) (_lngLat p) (_pos p) (options p).

Definition set_map (m : option MapId) (p : t) : t :=
  mk (_container p) (_content p) (_tip p) m (_lngLat p) (_pos p) (options p).

Definition set_options (o : gmap string JsVal) (p : t) : t :=
  mk (_container p) (_content p) (_tip p) (_map p) (_lngLat p) (_pos p) o.

Definition set_lngLat (l : option LngLat.t) (p : t) : t :=
  mk (_container p) (_content p) (_tip p) (_map p) l (_pos p) (options p).

Definition set_pos (q : option Point.t) (p : t) : t :=
  mk (_container p) (_content p) (_tip p) (_map p) (_lngLat p) q (options p).

(** [getLngLat()] returns the coordinate the popup is rendered at. *)
Definition getLngLat (p : t) : option LngLat.t := _lngLat p.
End Popup.

Module Props.
Record t : Type := mk {
  map : option MapId;
  location : JsVal;
  options : option (gmap string JsVal)
}.
End Props.

(** The geometry the browser reports: the bounding rectangle of every
    map container, the page scroll and the size of the document element. *)
Record Page : Type := mkPage {
  getBoundingClientRect : MapId -> DOMRect.t;
  scrollX : number;
  scrollY : number;
  clientHeight : number;
  clientWidth : number
}.

(** *** Collaborators: map events, animation frames, external calls *)

Inductive MapEvent : Type := move | remove.

(** The two methods the constructor binds once, so that [on] and [off]
    see the same function. *)
Inductive Handler : Type := this_update | this_removeMap.

(** The arrow function [_update] hands to [requestAnimationFrame]. *)
Inductive FrameCallback : Type := update_callback.

#[global] Instance MapEvent_eq_dec : EqDecision MapEvent.
Proof. solve_decision. Defined.

#[global] Instance Handler_eq_dec : EqDecision Handler.
Proof. solve_decision. Defined.

Abbreviation Listener := (MapId * MapEvent * Handler)%type.

(** Calls that leave the component, in the order they are made. *)
Inductive Call : Type :=
| call_on (m : MapId) (e : MapEvent) (h : Handler)
| call_off (m : MapId) (e : MapEvent) (h : Handler)
| call_setLngLat (lnglat : JsVal)
| call_popup_update
| call_appendChild (parent child : NodeId)
| call_removeChild (parent child : NodeId)
| call_requestAnimationFrame (cb : FrameCallback).

Record Component : Type := mkComponent {
  _mbPopup : option Popup.t;
  portalNode : option NodeId;
  props : Props.t
}.

Record State : Type := mkState {
  this : Component;
  page : Page;
  listeners : list Listener;
  parentNode : gmap NodeId NodeId;
  nextNode : NodeId;
  frameRequests : list FrameCallback;
  calls : list Call
}.

Definition set_this (c : Component) (s : State) : State :=
  mkState c (page s) (listeners s) (parentNode s) (nextNode s) (frameRequests s) (calls s).

Definition set_listeners (l : list Listener) (s : State) : State :=
  mkState (this s) (page s) l (parentNode s) (nextNode s) (frameRequests s) (calls s).

Definition set_parentNode (d : gmap NodeId NodeId) (s : State) : State :=
  mkState (this s) (page s) (listeners s) d (nextNode s) (frameRequests s) (calls s).

Definition set_nextNode (n : NodeId) (s : State) : State :=
  mkState (this s) (page s) (listeners s) (parentNode s) n (frameRequests s) (calls s).

Definition set_frameRequests (q : list FrameCallback) (s : State) : State :=
  mkState (this s) (page s) (listeners s) (parentNode s) (nextNode s) q (calls s).

Definition set_calls (c : list Call) (s : State) : State :=
  mkState (this s) (page s) (listeners s) (parentNode s) (nextNode s) (frameRequests s) c.

(** *** The monad of component code: state, and a thrown exception
    that leaves the mutations made so far in place *)

Definition M (A : Type) : Type := State -> Completion A * State.

#[global] Instance M_ret : MRet M := fun A a s => (Ok a, s).

#[global] Instance M_bind : MBind M := fun A B f m s =>
  match m s with
  | (Ok a, s') => f a s'
  | (Throw e, s') => (Throw e, s')
  end.

Definition get : M State := fun s => (Ok s, s).

Definition modify (f : State -> State) : M unit := fun s => (Ok tt, f s).

Definition throw {A : Type} (e : Error) : M A := fun s => (Throw e, s).

Definition record (c : Call) : M unit :=
  modify (fun s => set_calls (calls s ++ [c]) s).

(** Reading a property of [null] or [undefined] is a TypeError. *)
Definition nonNull {A : Type} (o : option A) : M A :=
  match o with
  | Some a => mret a
  | None => throw TypeError
  end.

Definition thePopup : M Popup.t :=
  s ← get; nonNull (_mbPopup (this s)).

Definition setPopup (p : Popup.t) : M unit :=
  modify (fun s => set_this (mkComponent (Some p) (portalNode (this s)) (props (this s))) s).

Definition setPortalNode (n : option NodeId) : M unit :=
  modify (fun s => set_this (mkComponent (_mbPopup (this s)) n (props (this s))) s).

(** *** The map surface and the DOM *)

Fixpoint remove_first (l : Listener) (ls : list Listener) : list Listener :=
  match ls with
  | [] => []
  | l' :: ls' => if decide (l = l') then ls' else l' :: remove_first l ls'
  end.

(** [map.on(type, listener)] *)
Definition Map_on (m : MapId) (e : MapEvent) (h : Handler) : M unit :=
  record (call_on m e h) ;;
  modify (fun s => set_listeners (listeners s ++ [(m, e, h)]) s).

(** [map.off(type, listener)] *)
Definition Map_off (m : MapId) (e : MapEvent) (h : Handler) : M unit :=
  record (call_off m e h) ;;
  modify (fun s => set_listeners (remove_first (m, e, h) (listeners s)) s).

Definition document_body : NodeId := 0.

(** [document.createElement('div')]: a new node, not attached. *)
Definition document_createElement : M NodeId :=
  s ← get;
  modify (set_nextNode (S (nextNode s))) ;;
  mret (nextNode s).

Definition Node_appendChild (parent child : NodeId) : M unit :=
  record (call_appendChild parent child) ;;
  modify (fun s => set_parentNode (<[child := parent]> (parentNode s)) s).

(** [parent.removeChild(child)] raises when [child] is not a child of [parent]. *)
Definition Node_removeChild (parent child : NodeId) : M unit :=
  record (call_removeChild parent child) ;;
  s ← get;
  if decide (parentNode s !! child = Some parent)
  then modify (fun s => set_parentNode (delete child (parentNode s)) s)
  else throw NotFoundError.

Definition requestAnimationFrame (cb : FrameCallback) : M unit :=
  record (call_requestAnimationFrame cb) ;;
  modify (fun s => set_frameRequests (frameRequests s ++ [cb]) s).

(** *** The popup of mapbox-gl

    The library is not part of the repository: its constructor and the two
    methods the wrapper calls are an interface.  A method either returns
    the popup it has updated or raises. *)

Class Mapbox : Type := {
  Popup_new : option (gmap string JsVal) -> Popup.t;
  Popup_setLngLat : JsVal -> Page -> Popup.t -> Completion Popup.t;
  Popup_update : Page -> Popup.t -> Completion Popup.t
}.

(** *** The component *)

Section Component.
Context `{Mapbox}.

(** [this._mbPopup.setLngLat(lnglat)] *)
Definition mbPopup_setLngLat (lnglat : JsVal) : M unit :=
  popup ← thePopup;
  record (call_setLngLat lnglat) ;;
  s ← get;
  match Popup_setLngLat lnglat (page s) popup with
  | Ok popup' => setPopup popup'
  | Throw e => throw e
  end.

(** [this._mbPopup._update()] *)
Definition mbPopup_update : M unit :=
  popup ← thePopup;
  record call_popup_update ;;
  s ← get;
  match Popup_update (page s) popup with
  | Ok popup' => setPopup popup'
  | Throw e => throw e
  end.

Definition defaultProps_location : JsVal := VArr [].

Definition defaultProps_options : gmap string JsVal :=
  <["closeButton" := VBool false]>
    (<["closeOnClick" := VBool false]>
      (<["maxWidth" := VStr DEFAULT_MAX_WIDTH]> ∅)).

(** React fills in [defaultProps] for every prop that is [undefined]. *)
Definition withDefaultProps (p : Props.t) : Props.t :=
  Props.mk (Props.map p)
    (match Props.location p with
     | VUndefined => defaultProps_location
     | l => l
     end)
    (Some (default defaultProps_options (Props.options p))).

Definition constructor (props : Props.t) : M unit :=
  modify (set_this (mkComponent (Some (Popup_new (Props.options props))) None props)) ;;
  node ← document_createElement;
  setPortalNode (Some node) ;;
  Node_appendChild document_body node.

Definition containerRef (element : option Element) : M unit :=
  popup ← thePopup; setPopup (Popup.set_container element popup).

Definition contentRef (element : option Element) : M unit :=
  popup ← thePopup; setPopup (Popup.set_content element popup).

Definition tipRef (element : option Element) : M unit :=
  popup ← thePopup; setPopup (Popup.set_tip element popup).

(** The body of [_calculateAnchorPosition] once its inputs are read. *)
Definition anchorComponents (pos : Point.t) (width height : number)
    (bounds : DOMRect.t) (clientHeight clientWidth : number) : list string :=
  let anchorComponents : list string := [] in
  let anchorComponents :=
    if gt (DOMRect.y bounds + Point.y pos + height) clientHeight
       && gt (DOMRect.y bounds + Point.y pos - height) 0
    then anchorComponents ++ ["bottom"]
    else if lt (DOMRect.y bounds + Point.y pos + height) clientHeight
            && lt (DOMRect.y bounds + Point.y pos - height) 0
    then anchorComponents ++ ["top"]
    else anchorComponents in
  let anchorComponents :=
    if gt (DOMRect.x bounds + Point.x pos + width) clientWidth
       && gt (DOMRect.x bounds + Point.x pos - width) 0
    then anchorComponents ++ ["right"]
    else if lt (DOMRect.x bounds + Point.x pos + width) clientWidth
            && lt (DOMRect.x bounds + Point.x pos - width) 0
    then anchorComponents ++ ["left"]
    else anchorComponents in
  anchorComponents.

Definition _calculateAnchorPosition : M string :=
  s ← get;
  popup ← thePopup;
  let pos := Popup._pos popup in
  container ← nonNull (Popup._container popup);
  let width := offsetWidth container in
  let height := offsetHeight container in
  map ← nonNull (Props.map (props (this s)));
  let bounds := getBoundingClientRect (page s) map in
  let clientHeight := clientHeight (page s) in
  let clientWidth := clientWidth (page s) in
  pos ← nonNull pos;
  mret (join (anchorComponents pos width height bounds clientHeight clientWidth)
             ANCHOR_DELIMITER).

Definition _calculateOffset : M JsVal :=
  s ← get;
  map ← nonNull (Props.map (props (this s)));
  let bounds := getBoundingClientRect (page s) map in
  mret (VArr [VNum (DOMRect.x bounds + scrollX (page s));
              VNum (DOMRect.y bounds + scrollY (page s))]).

(** The values an array pattern [[a, b] = v] draws from [v]: the elements
    of an array, the characters of a string; anything else is not iterable. *)
Definition iterate (v : JsVal) : M (list JsVal) :=
  match v with
  | VArr elems => mret elems
  | VStr s => mret ((fun c => VStr (String c EmptyString)) <$> String.list_ascii_of_string s)
  | _ => throw TypeError
  end.

Definition _isLocationChanged : M bool :=
  popup ← thePopup;
  let '(curLng, curLat) :=
    match Popup.getLngLat popup with
    | Some lnglat => (VNum (LngLat.lng lnglat), VNum (LngLat.lat lnglat))
    | None => (VUndefined, VUndefined)
    end in
  s ← get;
  let location := Props.location (props (this s)) in
  elems ← iterate (if truthy location then location else VArr []);
  let newLng := nth 0 elems VUndefined in
  let newLat := nth 1 elems VUndefined in
  mret (strictNotEquals curLng newLng || strictNotEquals curLat newLat).

Definition _removeMap : M unit :=
  popup ← thePopup;
  match Popup._map popup with
  | Some map =>
      Map_off map move this_update ;;
      Map_off map remove this_removeMap ;;
      popup ← thePopup;
      setPopup (Popup.set_map None popup)
  | None => mret tt
  end.

Definition _setMap (map : MapId) : M unit :=
  popup ← thePopup;
  if decide (Some map = Popup._map popup) then mret tt
  else
    _removeMap ;;
    popup ← thePopup;
    setPopup (Popup.set_map (Some map) popup) ;;
    Map_on map move this_update ;;
    Map_on map remove this_removeMap.

(** The function [_update] schedules: one synchronize cycle. *)
Definition _update_callback : M unit :=
  s ← get;
  let options := default ∅ (Props.options (props (this s))) in
  let location :=
    match Props.location (props (this s)) with
    | VUndefined => VArr [VNum 0; VNum 0]
    | l => l
    end in
  match Props.map (props (this s)), _mbPopup (this s) with
  | Some map, Some popup =>
      match Popup._container popup, Popup._content popup with
      | Some _, Some _ =>
          offset ← _calculateOffset;
          setPopup (Popup.set_options
                      (options ∪ <["anchor" := VNull]>
                                   (<["offset" := offset]> (Popup.options popup)))
                      popup) ;;
          _setMap map ;;
          changed ← _isLocationChanged;
          updated ← (if changed : bool
                     then mbPopup_setLngLat location ;; mret true
                     else mret false);
          (if negb updated then mbPopup_update else mret tt) ;;
          anchor ← _calculateAnchorPosition;
          popup ← thePopup;
          setPopup (Popup.set_options
                      (<["anchor" := VStr anchor]> (Popup.options popup)) popup) ;;
          mbPopup_update
      | _, _ => mret tt
      end
  | _, _ => mret tt
  end.

Definition run_callback (cb : FrameCallback) : M unit :=
  match cb with
  | update_callback => _update_callback
  end.

Definition _update : M unit :=
  requestAnimationFrame update_callback.

Definition _remove : M unit :=
  s ← get;
  match _mbPopup (this s) with
  | Some popup =>
      setPopup (Popup.set_container None popup) ;;
      popup ← thePopup;
      setPopup (Popup.set_content None popup) ;;
      _removeMap
  | None => mret tt
  end ;;
  s ← get;
  match portalNode (this s) with
  | Some node =>
      match parentNode s !! node with
      | Some parent =>
          Node_removeChild parent node ;;
          setPortalNode None
      | None => mret tt
      end
  | None => mret tt
  end.

Definition componentDidMount : M unit := _update.

Definition componentDidUpdate : M unit := _update.

Definition componentWillUnmount : M unit := _remove.

(** *** The event loop *)

Definition run_handler (h : Handler) : M unit :=
  match h with
  | this_update => _update
  | this_removeMap => _removeMap
  end.

(** The map fires [e]: the listeners registered for it at that moment
    run in registration order; an exception of one is reported and does
    not stop the others. *)
Definition Map_fire (m : MapId) (e : MapEvent) (s : State) : State :=
  foldl (fun s (l : Listener) =>
           if decide (l.1 = (m, e)) then (run_handler l.2 s).2 else s)
        s (listeners s).

(** The browser runs the callbacks requested before the frame, in request
    order; an exception of one is reported and does not stop the others. *)
Fixpoint run_callbacks (cbs : list FrameCallback) (s : State)
    : list (Completion unit) * State :=
  match cbs with
  | [] => ([], s)
  | cb :: cbs' =>
      let '(r, s') := run_callback cb s in
      let '(rs, s'') := run_callbacks cbs' s' in
      (r :: rs, s'')
  end.

Definition animationFrame (s : State) : list (Completion unit) * State :=
  run_callbacks (frameRequests s) (set_frameRequests [] s).

End Component.

End DrawPopup.

(** ** The table storage helpers *)

Module TableStorage.
Import Js.

(** Values a storage holds: primitives and plain objects. *)
Inductive JsVal : Type :=
| VUndefined
| VNull
| VBool (b : bool)
| VNum (a : number)
| VStr (s : string)
| VObj (fields : gmap string JsVal).

Definition truthy (v : JsVal) : bool :=
  match v with
  | VUndefined | VNull => false
  | VBool b => b
  | VNum a => number_truthy a
  | VStr s => negb (String.eqb s EmptyString)
  | VObj _ => true
  end.

(** [a || b] *)
Definition or (a b : JsVal) : JsVal := if truthy a then a else b.

(** *** lodash: [isObject], [get] and [set] along a path given as an array

    The library is not part of the repository; the model follows lodash
    4.17.21 ([baseGet], [baseSet], [assignValue]) on the values above.

    [get] reads [object[key]] along the path, stops at [null] and
    [undefined], and answers [undefined] where the path ends early or is
    empty.  A plain object is read through its own properties, a string
    through its length and its characters (strings of ASCII characters:
    one character per code unit).

    [set] leaves a root that is not an object alone, gives up on a path
    at one of the three keys [baseSet] refuses, keeping what it wrote
    above that key, and otherwise creates an object for every portion of
    the path that is not one.  No key of the paths the helpers use is an
    array index, so the object created is a plain one.

    Properties that an object or a primitive inherits from a prototype of
    the runtime ([Object.prototype.toString] and the like) are shared by
    every value and changed by a write below them; they are outside the
    model, which is right for the keys that name none of them (see
    [TableNotions.own_name]). *)

Definition isObject (v : JsVal) : bool :=
  match v with
  | VObj _ => true
  | _ => false
  end.

Definition number_of_nat (n : nat) : number :=
  PrimFloat.of_uint63 (Uint63.of_Z (Z.of_nat n)).

(** The index a property key denotes: the key is the decimal writing of
    the index, without sign or leading zero. *)
Definition index_of_key (key : string) : option nat :=
  match DecimalString.NilEmpty.uint_of_string key with
  | Some d =>
      let i := Nat.of_uint d in
      if String.eqb (DecimalString.NilEmpty.string_of_uint (Nat.to_uint i)) key
      then Some i else None
  | None => None
  end.

(** [s[key]] on a string. *)
Definition string_property (s : string) (key : string) : JsVal :=
  if String.eqb key "length" then VNum (number_of_nat (String.length s))
  else match index_of_key key with
       | Some i =>
           match String.get i s with
           | Some c => VStr (String c EmptyString)
           | None => VUndefined
           end
       | None => VUndefined
       end.

Fixpoint baseGet (object : JsVal) (path : list string) : JsVal :=
  match path with
  | [] => object
  | key :: path' =>
      match object with
      | VObj fields =>
          match fields !! key with
          | Some v => baseGet v path'
          | None => VUndefined
          end
      | VStr s => baseGet (string_property s key) path'
      | _ => VUndefined
      end
  end.

Definition get (object : JsVal) (path : list string) : JsVal :=
  match path with
  | [] => VUndefined
  | _ :: _ => baseGet object path
  end.

(** [key === '__proto__' || key === 'constructor' || key === 'prototype'] *)
Definition refused (key : string) : bool :=
  String.eqb key "__proto__" || String.eqb key "constructor"
  || String.eqb key "prototype".

Fixpoint set (object : JsVal) (path : list string) (value : JsVal) : JsVal :=
  match path with
  | [] => object
  | key :: path' =>
      match object with
      | VObj fields =>
          if refused key then object
          else
            match path' with
            | [] => VObj (<[key := value]> fields)
            | _ :: _ =>
                let objValue := default VUndefined (fields !! key) in
                let nested := if isObject objValue then objValue else VObj ∅ in
                VObj (<[key := set nested path' value]> fields)
            end
      | _ => object
      end
  end.

(** *** A storage that is a key-value map *)

Module Storage.
Definition get (storage : gmap string JsVal) (key : string) : JsVal :=
  default VNull (storage !! key).

Definition set (storage : gmap string JsVal) (key : string) (value : JsVal)
    : gmap string JsVal :=
  <[key := value]> storage.
End Storage.

Record TableState : Type := mkTableState {
  pageIndex : JsVal;
  filterText : JsVal;
  sortKey : JsVal;
  sortOrder : JsVal
}.

Section Helpers.
(** [STORAGE_KEY] is imported from the plugin's constants. *)
Variable STORAGE_KEY : string.

Definition tableStorageGetter (keyPrefix : string)
    (storage : gmap string JsVal) : TableState :=
  let localStorageData := or (Storage.get storage STORAGE_KEY) (VObj ∅) in
  let filterText := get localStorageData [keyPrefix; "filterText"] in
  let pageIndex := get localStorageData [keyPrefix; "pageIndex"] in
  let sortKey := get localStorageData [keyPrefix; "sortKey"] in
  let sortOrder := get localStorageData [keyPrefix; "sortOrder"] in
  mkTableState pageIndex filterText sortKey sortOrder.

(** Returns the storage after the write and the object written. *)
Definition tableStorageSetter (keyPrefix : string)
    (storage : gmap string JsVal) (state : TableState)
    : gmap string JsVal * JsVal :=
  let localStorageData := or (Storage.get storage STORAGE_KEY) (VObj ∅) in
  let localStorageData :=
    set localStorageData [keyPrefix; "filterText"] (or (filterText state) VUndefined) in
  let localStorageData :=
    set localStorageData [keyPrefix; "pageIndex"] (or (pageIndex state) VUndefined) in
  let localStorageData :=
    set localStorageData [keyPrefix; "sortKey"] (or (sortKey state) VUndefined) in
  let localStorageData :=
    set localStorageData [keyPrefix; "sortOrder"] (or (sortOrder state) VUndefined) in
  let storage := Storage.set storage STORAGE_KEY localStorageData in
  (storage, localStorageData).

End Helpers.

End TableStorage.

(** ** Notions the properties are stated with *)

Module Notions.
Import Js DrawPopup.

(** The nine anchor descriptors, the empty one standing for unset. *)
Definition anchors : list string :=
  [EmptyString; "top"; "bottom"; "left"; "right";
   "top-left"; "top-right"; "bottom-left"; "bottom-right"].

(** The calls made between an earlier state and a later one. *)
Definition new_calls (s s' : State) : list Call :=
  drop (length (calls s)) (calls s').

Definition is_popup_update (c : Call) : bool :=
  match c with
  | call_popup_update => true
  | _ => false
  end.

Definition is_setLngLat (c : Call) : bool :=
  match c with
  | call_setLngLat _ => true
  | _ => false
  end.

Definition is_removeChild (c : Call) : bool :=
  match c with
  | call_removeChild _ _ => true
  | _ => false
  end.

(** The subscriptions the component holds when it is bound to [map]. *)
Definition bindings (map : option MapId) : list Listener :=
  match map with
  | Some m => [(m, move, this_update); (m, remove, this_removeMap)]
  | None => []
  end.

Definition unbind_calls (map : option MapId) : list Call :=
  match map with
  | Some m => [call_off m move this_update; call_off m remove this_removeMap]
  | None => []
  end.

Definition bind_calls (map : MapId) : list Call :=
  [call_on map move this_update; call_on map remove this_removeMap].

(** The listeners of "move" events, on any map. *)
Definition move_listeners (ls : list Listener) : list Listener :=
  filter (fun l : Listener => l.1.2 = move) ls.

(** The offset [_calculateOffset] computes for a component on [map]. *)
Definition offset_of (pg : Page) (map : MapId) : JsVal :=
  VArr [VNum (DOMRect.x (getBoundingClientRect pg map) + scrollX pg);
        VNum (DOMRect.y (getBoundingClientRect pg map) + scrollY pg)].

(** The options of the popup after the merge step of a cycle. *)
Definition merged_options (s : State) (map : MapId) (popup : Popup.t)
    : gmap string JsVal :=
  default ∅ (Props.options (props (this s)))
  ∪ <["anchor" := VNull]> (<["offset" := offset_of (page s) map]> (Popup.options popup)).

(** The coordinate a cycle hands to [setLngLat]. *)
Definition target_location (s : State) : JsVal :=
  match Props.location (props (this s)) with
  | VUndefined => VArr [VNum 0; VNum 0]
  | l => l
  end.

(** The state with [popup] in place of the popup of the component. *)
Definition with_popup (popup : Popup.t) (s : State) : State :=
  set_this (mkComponent (Some popup) (portalNode (this s)) (props (this s))) s.

(** The anchor [_calculateAnchorPosition] computes for a popup at [pos]
    whose container is [container], on [map]. *)
Definition anchor_of (pg : Page) (map : MapId) (pos : Point.t)
    (container : Element) : string :=
  join (anchorComponents pos (offsetWidth container) (offsetHeight container)
          (getBoundingClientRect pg map) (clientHeight pg) (clientWidth pg))
       ANCHOR_DELIMITER.

(** What asks for a synchronize: new props, or the bound map moving. *)
Inductive Trigger : Type :=
| propsUpdated
| mapMoved (m : MapId).

Definition trigger (t : Trigger) (s : State) : State :=
  match t with
  | propsUpdated => (componentDidUpdate s).2
  | mapMoved m => Map_fire m move s
  end.

Definition burst (ts : list Trigger) (s : State) : State :=
  foldl (fun s t => trigger t s) s ts.

(** The calls a sequence of [_setMap] makes on a component bound to [cur]:
    nothing for the surface already bound, else the old one is unbound and
    then the new one bound. *)
Fixpoint rebind_calls (cur : option MapId) (maps : list MapId) : list Call :=
  match maps with
  | [] => []
  | m :: maps' =>
      (if decide (Some m = cur) then [] else unbind_calls cur ++ bind_calls m)
      ++ rebind_calls (Some m) maps'
  end.

(** The surface bound after such a sequence. *)
Definition last_bound (cur : option MapId) (maps : list MapId) : option MapId :=
  match last maps with
  | Some m => Some m
  | None => cur
  end.

(** A sequence of [_setMap] calls. *)
Fixpoint setMaps (maps : list MapId) : M unit :=
  match maps with
  | [] => mret tt
  | m :: maps' => _setMap m ;; setMaps maps'
  end.

End Notions.

(** ** A page to run the component on

    A flat map at scale one stands in for mapbox-gl: a coordinate projects
    to the pixel of the same numbers, [LngLat.convert] accepts a pair and
    the two object shapes, and a refresh recomputes the pixel position of a
    popup that has a map, a coordinate and a content. *)

Module Fixture.
Import Js DrawPopup Notions.

Definition lookup_number (fields : list (string * JsVal)) (key : string) : option number :=
  match list_find (fun kv : string * JsVal => kv.1 = key) fields with
  | Some (_, (_, VNum a)) => Some a
  | _ => None
  end.

Definition convert (v : JsVal) : option LngLat.t :=
  match v with
  | VArr [VNum lng; VNum lat] => Some (LngLat.mk lng lat)
  | VObj fields =>
      match lookup_number fields "lat", lookup_number fields "lng",
            lookup_number fields "lon" with
      | Some lat, Some lng, _ => Some (LngLat.mk lng lat)
      | Some lat, None, Some lon => Some (LngLat.mk lon lat)
      | _, _, _ => None
      end
  | _ => None
  end.

Definition project (l : LngLat.t) : Point.t :=
  Point.mk (LngLat.lng l) (LngLat.lat l).

Definition refresh (p : Popup.t) : Popup.t :=
  match Popup._map p, Popup._lngLat p, Popup._content p with
  | Some _, Some l, Some _ => Popup.set_pos (Some (project l)) p
  | _, _, _ => p
  end.

#[local] Instance flat_map : Mapbox := {|
  Popup_new o := Popup.mk None None None None None None (default ∅ o);
  Popup_setLngLat v _ p :=
    match convert v with
    | Some l => Ok (refresh (Popup.set_pos None (Popup.set_lngLat (Some l) p)))
    | None => Throw LibraryError
    end;
  Popup_update _ p := Ok (refresh p)
|}.

Definition viewport : Page :=
  mkPage (fun _ => DOMRect.mk 0 0) 0 0 400 800.

Definition box : Element := mkElement 100 50.

(** Before the component exists: only [document.body]. *)
Definition blank (p : Props.t) : State :=
  mkState (mkComponent None None p) viewport [] ∅ 1 [] [].

Definition run (steps : list (M unit)) (s : State) : State :=
  foldl (fun s (step : M unit) => (step s).2) s steps.

(** Constructed and rendered with props [p], the first cycle still pending. *)
Definition rendered (p : Props.t) : State :=
  run [constructor p; containerRef (Some box); contentRef (Some box);
       componentDidMount] (blank p).

(** Mounted: the first animation frame has run. *)
Definition mounted (p : Props.t) : State := (animationFrame (rendered p)).2.

Definition props_at (location : JsVal) : Props.t :=
  withDefaultProps (Props.mk (Some 7) location None).

Definition near_bottom : JsVal := VArr [VNum 100; VNum 380].

(** A popup pinned 20 pixels above the bottom edge of the viewport. *)
Definition pinned : State := mounted (props_at near_bottom).

(** Two triggers before the next frame: new props, then the map moves. *)
Definition two_triggers : State := burst [propsUpdated; mapMoved 7] pinned.

(** Rendered with the location given as an object. *)
Definition rendered_with_object : State :=
  rendered (props_at (VObj [("lon", VNum 10); ("lat", VNum 20)])).

(** Geometries for each of the nine anchors, in a 400 by 800 viewport. *)
Definition samples : list (Point.t * Element) :=
  [(Point.mk 400 200, mkElement 100 50);
   (Point.mk 400 20, mkElement 100 50);
   (Point.mk 400 380, mkElement 100 50);
   (Point.mk 20 200, mkElement 100 50);
   (Point.mk 780 200, mkElement 100 50);
   (Point.mk 20 20, mkElement 100 50);
   (Point.mk 780 20, mkElement 100 50);
   (Point.mk 20 380, mkElement 100 50);
   (Point.mk 780 380, mkElement 100 50)].

End Fixture.

(** ** Notions and sample data for the table storage *)

Module TableNotions.
Import Js TableStorage.

(** The own properties of the object under [key], none when there is no
    object there. *)
Definition nested_fields (fields : gmap string JsVal) (key : string)
    : gmap string JsVal :=
  match fields !! key with
  | Some (VObj nested) => nested
  | _ => ∅
  end.

(** What a written value reads back as. *)
Definition stored (v : JsVal) : JsVal := or v VUndefined.

(** The names every plain object inherits from [Object.prototype]. *)
Definition Object_prototype_names : list string :=
  ["constructor"; "__defineGetter__"; "__defineSetter__"; "hasOwnProperty";
   "__lookupGetter__"; "__lookupSetter__"; "isPrototypeOf";
   "propertyIsEnumerable"; "toString"; "valueOf"; "__proto__";
   "toLocaleString"].

Definition inherited (key : string) : bool :=
  existsb (String.eqb key) Object_prototype_names.

(** A key that lodash [set] writes under and that a plain object reads
    through its own properties only. *)
Definition own_name (key : string) : bool :=
  negb (refused key) && negb (inherited key).

(** What the root the helpers work on holds under [key], when that root
    is an object. *)
Definition entry_below (root : JsVal) (key : string) : option JsVal :=
  match root with
  | VObj fields => fields !! key
  | _ => None
  end.

(** Absent, [undefined], [null] or an object. *)
Definition nullish_or_object (v : option JsVal) : bool :=
  match v with
  | None | Some VUndefined | Some VNull | Some (VObj _) => true
  | Some _ => false
  end.

Definition sample_key : string := "xpack.monitoring.data".

Definition sample_state : TableState :=
  mkTableState (VNum 2) (VStr "abc") (VStr "name") (VStr "asc").

(** A storage whose entry under the key is a number. *)
Definition number_storage : gmap string JsVal := <[sample_key := VNum 5]> ∅.

End TableNotions.

(** ** Views of the state, for what an operation leaves alone *)

Module Frames.
Import Js DrawPopup Notions.

(** What a synchronize cycle has no business with: the geometry of the
    page, the DOM tree, the frames requested, the portal node, the props. *)
Definition surroundings (s : State) :
    Page * gmap NodeId NodeId * NodeId * list FrameCallback
    * option NodeId * Props.t :=
  (page s, parentNode s, nextNode s, frameRequests s,
   portalNode (this s), props (this s)).

(** [m] leaves [view] as it found it, whether it returns or raises. *)
Definition keeps {V A : Type} (view : State -> V) (m : M A) : Prop :=
  forall s, view (m s).2 = view s.

(** What an array pattern accepts. *)
Definition iterable (v : JsVal) : bool :=
  match v with
  | VArr _ | VStr _ => true
  | _ => false
  end.

(** The popup calls of a log. *)
Definition popup_calls (cs : list Call) : list Call :=
  filter (fun c => is_popup_update c || is_setLngLat c) cs.

(** [m] only appends to the call log, and only calls that satisfy [P],
    whether it returns or raises. *)
Definition logs {A : Type} (P : Call -> Prop) (m : M A) : Prop :=
  forall s, exists extra, calls (m s).2 = calls s ++ extra /\ Forall P extra.

(** [n] synchronize cycles, one after the other, each on the state the
    one before left; an exception of one does not stop the next. *)
Fixpoint cycles `{Mapbox} (n : nat) (s : State) : list (Completion unit) * State :=
  match n with
  | 0 => ([], s)
  | S n' =>
      let '(r, s1) := _update_callback s in
      let '(rs, s2) := cycles n' s1 in
      (r :: rs, s2)
  end.

End Frames.

(** ** What the setter of the table storage writes *)

Module StorageNotions.
Import Js TableStorage TableNotions.

(** The four properties of [state], written over [nested]. *)
Definition written_fields (state : TableState) (nested : gmap string JsVal)
    : gmap string JsVal :=
  <["sortOrder" := stored (sortOrder state)]>
    (<["sortKey" := stored (sortKey state)]>
      (<["pageIndex" := stored (pageIndex state)]>
        (<["filterText" := stored (filterText state)]> nested))).

(** What the setter writes, given the root it found. *)
Definition written_root (keyPrefix : string) (state : TableState) (root : JsVal)
    : JsVal :=
  match root with
  | VObj fields =>
      if refused keyPrefix then root
      else VObj (<[keyPrefix := VObj (written_fields state
                                        (nested_fields fields keyPrefix))]> fields)
  | _ => root
  end.

(** The state of a table nothing is stored for. *)
Definition nothing_stored : TableState :=
  mkTableState VUndefined VUndefined VUndefined VUndefined.

(** The state read back after [state] was written. *)
Definition read_back (state : TableState) : TableState :=
  mkTableState (stored (pageIndex state)) (stored (filterText state))
    (stored (sortKey state)) (stored (sortOrder state)).

(** The names of the four properties the helpers own. *)
Definition owned_fields : list string :=
  ["filterText"; "pageIndex"; "sortKey"; "sortOrder"].

Definition other_state : TableState :=
  mkTableState VNull (VStr "cpu") (VStr EmptyString) (VStr "desc").

(** A storage that holds, for the table "nodes", a property the helpers
    do not own. *)
Definition storage_with_columns : gmap string JsVal :=
  <[sample_key := VObj (<["nodes" := VObj (<["columns" := VNum 3]> ∅)]> ∅)]> ∅.

End StorageNotions.

(** ** The other variant of the popup wrapper

    The second copy of the component attaches the popup with [addTo] and
    detaches it with [remove] of mapbox-gl, and subscribes to no event of
    the map itself.  Its constructor (the two [bind] apart), its
    [_calculateAnchorPosition], [_calculateOffset], [_isLocationChanged]
    and [_update] are those of the first variant, word for word, and are
    taken from [DrawPopup]; its cycle and its [componentWillUnmount]
    differ and are given here.  The call log has no entry for [addTo] and
    [remove]: what they return shows in the popup. *)

Module DrawPopupAddTo.
Import Js DrawPopup.

Class MapboxAttach : Type := {
  Popup_addTo : MapId -> Page -> Popup.t -> Completion Popup.t;
  Popup_remove : Popup.t -> Completion Popup.t
}.

Section Component.
Context `{Mapbox} `{MapboxAttach}.

(** [this._mbPopup.addTo(map)] *)
Definition mbPopup_addTo (map : MapId) : M unit :=
  popup ← thePopup;
  s ← get;
  match Popup_addTo map (page s) popup with
  | Ok popup' => setPopup popup'
  | Throw e => throw e
  end.

(** [this._mbPopup.remove()] *)
Definition mbPopup_remove : M unit :=
  popup ← thePopup;
  match Popup_remove popup with
  | Ok popup' => setPopup popup'
  | Throw e => throw e
  end.

Definition _update_callback : M unit :=
  s ← get;
  let options := default ∅ (Props.options (props (this s))) in
  let location :=
    match Props.location (props (this s)) with
    | VUndefined => VArr [VNum 0; VNum 0]
    | l => l
    end in
  match Props.map (props (this s)) with
  | Some map =>
      popup ← thePopup;
      match Popup._container popup, Popup._content popup with
      | Some _, Some _ =>
          offset ← _calculateOffset;
          setPopup (Popup.set_options
                      (options ∪ <["anchor" := VNull]>
                                   (<["offset" := offset]> (Popup.options popup)))
                      popup) ;;
          changed ← _isLocationChanged;
          updated ← (if changed : bool
                     then mbPopup_setLngLat location ;; mret true
                     else mret false);
          popup ← thePopup;
          updated ← (if decide (Some map = Popup._map popup)
                     then mret updated
                     else mbPopup_addTo map ;; mret true);
          (if negb updated then mbPopup_update else mret tt) ;;
          anchor ← _calculateAnchorPosition;
          popup ← thePopup;
          setPopup (Popup.set_options
                      (<["anchor" := VStr anchor]> (Popup.options popup)) popup) ;;
          mbPopup_update
      | _, _ => mret tt
      end
  | None => mret tt
  end.

Definition componentWillUnmount : M unit :=
  popup ← thePopup;
  setPopup (Popup.set_container None popup) ;;
  popup ← thePopup;
  setPopup (Popup.set_content None popup) ;;
  mbPopup_remove ;;
  s ← get;
  node ← nonNull (portalNode (this s));
  match parentNode s !! node with
  | Some parent => Node_removeChild parent node
  | None => mret tt
  end.

End Component.

End DrawPopupAddTo.

(** A stand-in for [addTo] and [remove] on the flat map of [Fixture]. *)

Module AddToFixture.
Import Js DrawPopup DrawPopupAddTo Fixture.

#[local] Instance flat_attach : MapboxAttach := {|
  Popup_addTo m _ p := Ok (refresh (Popup.set_map (Some m) p));
  Popup_remove p := Ok (Popup.set_map None p)
|}.

End AddToFixture.

(** ** More states to run the component on *)

Module MoreFixture.
Import Js DrawPopup Notions Fixture.
#[local] Existing Instance flat_map.

(** Constructed, not yet rendered: the popup has no container. *)
Definition constructed : State :=
  run [constructor (props_at near_bottom)] (blank (props_at near_bottom)).

(** Rendered, the first cycle pending: the popup has no coordinate yet. *)
Definition first_frame : State := rendered (props_at near_bottom).

(** React hands the component new props. *)
Definition reprops (p : Props.t) (s : State) : State :=
  set_this (mkComponent (_mbPopup (this s)) (portalNode (this s)) p) s.

(** The pinned popup, asked to move to another map. *)
Definition pinned_on_9 : State :=
  reprops (withDefaultProps (Props.mk (Some 9) near_bottom None)) pinned.

(** The pinned popup, rendered again by a caller that gives no location. *)
Definition pinned_without_location : State :=
  reprops (withDefaultProps (Props.mk (Some 7) VUndefined None)) pinned.


End MoreFixture.

(** * Properties *)

Import Js.

(** ** The state-and-exception monad *)

(** Runs the monad on the state at hand: the primitive operations are
    unfolded and the matches on their results reduced. *)
Ltac exec :=
  unfold DrawPopup.thePopup, DrawPopup.setPopup, DrawPopup.setPortalNode,
    DrawPopup.record, DrawPopup.Map_on, DrawPopup.Map_off,
    DrawPopup.Node_removeChild;
  unfold mbind, DrawPopup.M_bind, mret, DrawPopup.M_ret, DrawPopup.get,
    DrawPopup.modify, DrawPopup.throw, DrawPopup.nonNull;
  cbn.

Ltac compute_eq := vm_compute; reflexivity.

Section MonadLaws.
Import DrawPopup.

Lemma bind_ok {A B : Type} (m : M A) (f : A -> M B) (s s' : State) (a : A) :
  m s = (Ok a, s') -> (m ≫= f) s = f a s'.
Proof. intros E. unfold mbind, M_bind. now rewrite E. Qed.

Lemma bind_throw {A B : Type} (m : M A) (f : A -> M B) (s s' : State) (e : Error) :
  m s = (Throw e, s') -> (m ≫= f) s = (Throw e, s').
Proof. intros E. unfold mbind, M_bind. now rewrite E. Qed.

Lemma bind_ok_inv {A B : Type} (m : M A) (f : A -> M B) (s s' : State) (b : B) :
  (m ≫= f) s = (Ok b, s') <-> exists a s0, m s = (Ok a, s0) /\ f a s0 = (Ok b, s').
Proof.
  unfold mbind, M_bind. destruct (m s) as [[a|e] s0]; split.
  - intros E. now exists a, s0.
  - now intros (a' & s0' & [= <- <-] & E).
  - discriminate.
  - now intros (a' & s0' & [= ] & E).
Qed.

Lemma bind_ok_inv_unit {B : Type} (m : M unit) (f : unit -> M B) (s s' : State) (b : B) :
  (m ≫= f) s = (Ok b, s') <-> exists s0, m s = (Ok tt, s0) /\ f tt s0 = (Ok b, s').
Proof.
  rewrite bind_ok_inv. split.
  - intros ([] & s0 & E). now exists s0.
  - intros (s0 & E). now exists tt, s0.
Qed.

Lemma thePopup_some (s : State) (popup : Popup.t) :
  _mbPopup (this s) = Some popup -> thePopup s = (Ok popup, s).
Proof. intros E. unfold thePopup. exec. now rewrite E. Qed.

Lemma thePopup_none (s : State) :
  _mbPopup (this s) = None -> thePopup s = (Throw TypeError, s).
Proof. intros E. unfold thePopup. exec. now rewrite E. Qed.

End MonadLaws.

(** ** The anchor of the popup *)

Section Anchor.
Import DrawPopup Notions.

(** With a popup that has a container and a position, on a component that
    has a map, [_calculateAnchorPosition] reads its inputs without raising,
    changes nothing and joins the tags of [anchorComponents]. *)
Lemma calculateAnchorPosition_ok (s : State) (popup : Popup.t)
    (container : Element) (map : MapId) (pos : Point.t) :
  _mbPopup (this s) = Some popup ->
  Popup._container popup = Some container ->
  Props.map (props (this s)) = Some map ->
  Popup._pos popup = Some pos ->
  _calculateAnchorPosition s =
    (Ok (join (anchorComponents pos (offsetWidth container) (offsetHeight container)
                 (getBoundingClientRect (page s) map)
                 (clientHeight (page s)) (clientWidth (page s)))
              ANCHOR_DELIMITER), s).
Proof.
  intros Hp Hc Hm Hpos. unfold _calculateAnchorPosition. exec.
  rewrite Hp. cbn. rewrite Hc. cbn. rewrite Hm. cbn. rewrite Hpos. reflexivity.
Qed.

Lemma anchorComponents_cases (pos : Point.t) (width height : number)
    (bounds : DOMRect.t) (cH cW : number) :
  anchorComponents pos width height bounds cH cW =
    (if gt (DOMRect.y bounds + Point.y pos + height) cH
        && gt (DOMRect.y bounds + Point.y pos - height) 0
     then ["bottom"]
     else if lt (DOMRect.y bounds + Point.y pos + height) cH
             && lt (DOMRect.y bounds + Point.y pos - height) 0
     then ["top"] else [])
    ++
    (if gt (DOMRect.x bounds + Point.x pos + width) cW
        && gt (DOMRect.x bounds + Point.x pos - width) 0
     then ["right"]
     else if lt (DOMRect.x bounds + Point.x pos + width) cW
             && lt (DOMRect.x bounds + Point.x pos - width) 0
     then ["left"] else []).
Proof.
  unfold anchorComponents.
  repeat match goal with |- context [if ?b then _ else _] => destruct b end;
    reflexivity.
Qed.

(** C1: the list of tags [_calculateAnchorPosition] builds is exactly the
    vertical tag followed by the horizontal tag, and the string it returns
    is that list joined by the delimiter. The vertical tag is "bottom" when
    [bounds.y + pos.y + height > clientHeight] and
    [bounds.y + pos.y - height > 0]; otherwise it is "top" when
    [bounds.y + pos.y + height < clientHeight] and
    [bounds.y + pos.y - height < 0]; otherwise there is none. The
    horizontal tag is "right", "left" or none by the same comparisons of
    [x] and [width] against [clientWidth]. Nothing else is appended. *)
Theorem calculateAnchorPosition_tags (s : State) (popup : Popup.t)
    (container : Element) (map : MapId) (pos : Point.t) :
  _mbPopup (this s) = Some popup ->
  Popup._container popup = Some container ->
  Props.map (props (this s)) = Some map ->
  Popup._pos popup = Some pos ->
  let width := offsetWidth container in
  let height := offsetHeight container in
  let bounds := getBoundingClientRect (page s) map in
  let bottom := gt (DOMRect.y bounds + Point.y pos + height) (clientHeight (page s))
                && gt (DOMRect.y bounds + Point.y pos - height) 0 in
  let top := lt (DOMRect.y bounds + Point.y pos + height) (clientHeight (page s))
             && lt (DOMRect.y bounds + Point.y pos - height) 0 in
  let right := gt (DOMRect.x bounds + Point.x pos + width) (clientWidth (page s))
               && gt (DOMRect.x bounds + Point.x pos - width) 0 in
  let left := lt (DOMRect.x bounds + Point.x pos + width) (clientWidth (page s))
              && lt (DOMRect.x bounds + Point.x pos - width) 0 in
  let vertical := if bottom then ["bottom"] else if top then ["top"] else [] in
  let horizontal := if right then ["right"] else if left then ["left"] else [] in
  anchorComponents pos width height bounds (clientHeight (page s)) (clientWidth (page s))
    = vertical ++ horizontal /\
  _calculateAnchorPosition s = (Ok (join (vertical ++ horizontal) ANCHOR_DELIMITER), s).
Proof.
  intros Hp Hc Hm Hpos width height bounds bottom top right left vertical horizontal.
  assert (E : anchorComponents pos width height bounds
                (clientHeight (page s)) (clientWidth (page s)) = vertical ++ horizontal)
    by apply anchorComponents_cases.
  split; [exact E|].
  rewrite <- E. exact (calculateAnchorPosition_ok s popup container map pos Hp Hc Hm Hpos).
Qed.

(** C2: the string [_calculateAnchorPosition] returns is one of the nine
    anchor descriptors: at most one of "top"/"bottom", then at most one of
    "left"/"right", joined by the delimiter, and the empty string when
    there is no tag. *)
Theorem calculateAnchorPosition_anchors (s : State) (popup : Popup.t)
    (container : Element) (map : MapId) (pos : Point.t) :
  _mbPopup (this s) = Some popup ->
  Popup._container popup = Some container ->
  Props.map (props (this s)) = Some map ->
  Popup._pos popup = Some pos ->
  exists (anchor : string) (vertical horizontal : list string),
    _calculateAnchorPosition s = (Ok anchor, s) /\
    (anchor ∈ anchors) /\
    (vertical ∈ [[]; ["top"]; ["bottom"]]) /\
    (horizontal ∈ [[]; ["left"]; ["right"]]) /\
    anchor = join (vertical ++ horizontal) ANCHOR_DELIMITER.
Proof.
  intros Hp Hc Hm Hpos.
  rewrite (calculateAnchorPosition_ok s popup container map pos Hp Hc Hm Hpos).
  rewrite anchorComponents_cases.
  set (v := if _ : bool then ["bottom"] else if _ : bool then ["top"] else []).
  set (h := if _ : bool then ["right"] else if _ : bool then ["left"] else []).
  exists (join (v ++ h) ANCHOR_DELIMITER), v, h.
  assert (Hv : v ∈ [[]; ["top"]; ["bottom"]]).
  { subst v. repeat match goal with |- context [if ?b then _ else _] => destruct b end;
      apply list_elem_of_In; cbn; tauto. }
  assert (Hh : h ∈ [[]; ["left"]; ["right"]]).
  { subst h. repeat match goal with |- context [if ?b then _ else _] => destruct b end;
      apply list_elem_of_In; cbn; tauto. }
  repeat split; try assumption.
  apply list_elem_of_In in Hv, Hh. cbn in Hv, Hh.
  destruct Hv as [<-|[<-|[<-|[]]]], Hh as [<-|[<-|[<-|[]]]];
    apply list_elem_of_In; cbn; tauto.
Qed.

(** A popup 100 wide and 50 high, 20 pixels above the bottom of a viewport
    400 high that starts at [y = 0], is anchored at its bottom. *)
Example anchor_near_bottom_edge :
  anchorComponents (Point.mk 100 380) 100 50 (DOMRect.mk 0 0) 400 800 = ["bottom"].
Proof. reflexivity. Qed.

(** A map surface at (10, 20) on a page scrolled by (5, 5) gives the
    offset (15, 25). *)
Example offset_of_scrolled_page :
  offset_of (mkPage (fun _ => DOMRect.mk 10 20) 5 5 400 800) 7
  = VArr [VNum 15; VNum 25].
Proof. reflexivity. Qed.

(** The nine descriptors are distinct and each one is returned for some
    geometry. *)
Lemma anchors_distinct_and_reached :
  NoDup anchors /\
  (fun sample : Point.t * Element =>
     join (anchorComponents sample.1 (offsetWidth sample.2) (offsetHeight sample.2)
             (DOMRect.mk 0 0) 400 800)
          ANCHOR_DELIMITER) <$> Fixture.samples = anchors.
Proof.
  split; [|reflexivity].
  apply NoDup_ListNoDup. unfold anchors.
  repeat (constructor; [cbn; intuition discriminate|]). constructor.
Qed.

End Anchor.

(** ** Binding to a map surface *)

Section Binding.
Import DrawPopup Notions.

Lemma set_map_same (popup : Popup.t) (map : MapId) :
  Popup._map popup = Some map -> Popup.set_map (Some map) popup = popup.
Proof. destruct popup; cbn; intros ->; reflexivity. Qed.

Lemma removeMap_ok (s : State) (popup : Popup.t) :
  _mbPopup (this s) = Some popup ->
  exists s1,
    _removeMap s = (Ok tt, s1) /\
    this s1 = mkComponent (Some (Popup.set_map None popup))
                (portalNode (this s)) (props (this s)) /\
    page s1 = page s /\
    parentNode s1 = parentNode s /\
    nextNode s1 = nextNode s /\
    frameRequests s1 = frameRequests s /\
    calls s1 = calls s ++ unbind_calls (Popup._map popup) /\
    listeners s1 =
      match Popup._map popup with
      | Some m => remove_first (m, remove, this_removeMap)
                    (remove_first (m, move, this_update) (listeners s))
      | None => listeners s
      end.
Proof.
  intros Hp. destruct s as [[mb pn pr] pg ls par nn fr cl]. cbn in Hp. subst mb.
  unfold _removeMap. exec.
  destruct popup as [c ct tp [m|] ll ps op]; cbn.
  - eexists. split; [reflexivity|]. cbn. rewrite <- app_assoc. repeat split.
  - eexists. split; [reflexivity|]. cbn. rewrite app_nil_r. repeat split.
Qed.

(** [_setMap] never raises on a component that has a popup; it leaves the
    popup pointing to [map] and touches nothing but the popup's map, the
    listeners and the call log. *)
Lemma setMap_ok (s : State) (popup : Popup.t) (map : MapId) :
  _mbPopup (this s) = Some popup ->
  exists s1,
    _setMap map s = (Ok tt, s1) /\
    this s1 = mkComponent (Some (Popup.set_map (Some map) popup))
                (portalNode (this s)) (props (this s)) /\
    page s1 = page s /\
    parentNode s1 = parentNode s /\
    nextNode s1 = nextNode s /\
    frameRequests s1 = frameRequests s /\
    calls s1 = calls s ++ rebind_calls (Popup._map popup) [map] /\
    listeners s1 =
      (if decide (Some map = Popup._map popup) then listeners s
       else match Popup._map popup with
            | Some m => remove_first (m, remove, this_removeMap)
                          (remove_first (m, move, this_update) (listeners s))
            | None => listeners s
            end ++ bindings (Some map)) /\
    (Popup._map popup = Some map -> s1 = s).
Proof.
  intros Hp. unfold _setMap.
  rewrite (bind_ok _ _ s s popup (thePopup_some s popup Hp)).
  cbn [rebind_calls]. destruct (decide (Some map = Popup._map popup)) as [E|NE].
  - exists s. split; [reflexivity|]. rewrite set_map_same by done.
    rewrite !app_nil_r. repeat split.
    destruct s as [[mb pn pr] pg ls par nn fr cl]. cbn in *. now subst.
  - destruct (removeMap_ok s popup Hp) as (s0 & E0 & Hthis & Hpg & Hpar & Hnn & Hfr & Hcl & Hls).
    rewrite (bind_ok _ _ s s0 tt E0).
    destruct s0 as [[mb pn pr] pg ls par nn fr cl]. cbn in *.
    injection Hthis as -> -> ->. subst.
    exec. eexists. split; [reflexivity|]. cbn.
    rewrite app_nil_r, <- !app_assoc. repeat split.
    intros E. now rewrite E in NE.
Qed.

Lemma bindings_removed (m : MapId) :
  remove_first (m, remove, this_removeMap)
    (remove_first (m, move, this_update) (bindings (Some m))) = [].
Proof.
  cbn. rewrite decide_True by reflexivity.
  cbn. now rewrite decide_True by reflexivity.
Qed.

(** One [_setMap] on a bound component: bound again, to [map]. *)
Lemma setMap_bound (s : State) (popup : Popup.t) (map : MapId) :
  _mbPopup (this s) = Some popup ->
  listeners s = bindings (Popup._map popup) ->
  exists s1 popup1,
    _setMap map s = (Ok tt, s1) /\
    _mbPopup (this s1) = Some popup1 /\
    Popup._map popup1 = Some map /\
    listeners s1 = bindings (Some map) /\
    calls s1 = calls s ++ rebind_calls (Popup._map popup) [map] /\
    frameRequests s1 = frameRequests s.
Proof.
  intros Hp Hb.
  destruct (setMap_ok s popup map Hp) as (s1 & E & Hthis & _ & _ & _ & Hfr & Hcl & Hls & _).
  exists s1, (Popup.set_map (Some map) popup).
  rewrite Hthis. repeat split; try assumption.
  rewrite Hls, Hb. destruct (decide (Some map = Popup._map popup)) as [<-|NE]; [reflexivity|].
  destruct (Popup._map popup) as [m|]; [|reflexivity].
  now rewrite bindings_removed.
Qed.

(** C5: on a component bound to at most one map surface, every sequence of
    [_setMap] calls returns without raising and leaves exactly the last
    surface bound, with exactly one "move" subscription; the calls it made
    are, for each surface that differs from the one bound at that moment,
    the two [off] of the old surface and only then the two [on] of the new
    one; and [_setMap] of the surface that is bound changes nothing. *)
Theorem setMap_one_surface_bound (maps : list MapId) (s : State) (popup : Popup.t) :
  _mbPopup (this s) = Some popup ->
  listeners s = bindings (Popup._map popup) ->
  exists s1 popup1,
    setMaps maps s = (Ok tt, s1) /\
    _mbPopup (this s1) = Some popup1 /\
    Popup._map popup1 = last_bound (Popup._map popup) maps /\
    listeners s1 = bindings (Popup._map popup1) /\
    (maps <> [] -> length (move_listeners (listeners s1)) = 1) /\
    calls s1 = calls s ++ rebind_calls (Popup._map popup) maps /\
    (forall m, Popup._map popup1 = Some m -> _setMap m s1 = (Ok tt, s1)).
Proof.
  revert s popup. induction maps as [|m maps IH]; intros s popup Hp Hb.
  - exists s, popup. cbn. rewrite app_nil_r. repeat split; try assumption; try done.
    intros m Hm. destruct (setMap_ok s popup m Hp) as (s1 & E & _ & _ & _ & _ & _ & _ & _ & Hsame).
    now rewrite E, (Hsame Hm).
  - destruct (setMap_bound s popup m Hp Hb) as (s0 & popup0 & E0 & Hp0 & Hm0 & Hb0 & Hcl0 & _).
    rewrite <- Hm0 in Hb0.
    destruct (IH s0 popup0 Hp0 Hb0) as (s1 & popup1 & E1 & Hp1 & Hm1 & Hb1 & Hone & Hcl1 & Hsame).
    exists s1, popup1. cbn [setMaps].
    rewrite (bind_ok _ _ s s0 tt E0).
    repeat split; try assumption.
    + rewrite Hm1, Hm0. unfold last_bound. rewrite last_cons.
      now destruct (last maps).
    + intros _. rewrite Hb1, Hm1, Hm0. unfold last_bound.
      now destruct (last maps).
    + rewrite Hcl1, Hcl0, Hm0. cbn [rebind_calls]. now rewrite app_nil_r, <- app_assoc.
Qed.

End Binding.

(** ** Teardown *)

Section Teardown.
Import DrawPopup Notions.
Context `{Mapbox}.

(** [_remove] never raises; afterwards the popup, if there is one, has no
    container, no content and no map, and the portal node has no parent.
    The animation frames already requested stay requested. *)
Lemma remove_ok (s : State) :
  exists s1,
    _remove s = (Ok tt, s1) /\
    (forall popup, _mbPopup (this s1) = Some popup ->
       Popup._container popup = None /\ Popup._content popup = None /\
       Popup._map popup = None) /\
    frameRequests s1 = frameRequests s /\
    (forall node, portalNode (this s) = Some node -> parentNode s1 !! node = None) /\
    (forall node, portalNode (this s1) = Some node -> parentNode s1 !! node = None) /\
    length (filter is_removeChild (new_calls s s1)) =
      match portalNode (this s) with
      | Some node => if bool_decide (is_Some (parentNode s !! node)) then 1 else 0
      | None => 0
      end.
Proof.
  destruct s as [[[[c ct tp [m|] ll ps op]|] [node|] pr] pg ls par nn fr cl];
    unfold _remove, _removeMap; exec;
    try (destruct (par !! node) as [parent|] eqn:Epar; exec;
         try (rewrite decide_True by assumption; cbn));
    (eexists; split; [reflexivity|]); unfold new_calls; cbn.
  all: repeat split.
  all: intros; simplify_eq/=; rewrite <- ?app_assoc, ?drop_app_length, ?drop_all;
       try done; try apply lookup_delete_eq.
Qed.

(** On a component already torn down, [_remove] changes nothing. *)
Lemma remove_idle (s : State) :
  (forall popup, _mbPopup (this s) = Some popup ->
     Popup._container popup = None /\ Popup._content popup = None /\
     Popup._map popup = None) ->
  (forall node, portalNode (this s) = Some node -> parentNode s !! node = None) ->
  _remove s = (Ok tt, s).
Proof.
  intros Hpopup Hportal.
  destruct s as [[[[c ct tp m ll ps op]|] [node|] pr] pg ls par nn fr cl]; cbn in *.
  all: try (destruct (Hpopup _ eq_refl) as (Hc & Hct & Hm); cbn in Hc, Hct, Hm; subst).
  all: try (pose proof (Hportal _ eq_refl) as Epar).
  all: unfold _remove, _removeMap; exec; rewrite ?Epar; reflexivity.
Qed.

(** A cycle that finds no popup, or a popup without container, aborts at
    its guard. *)
Lemma update_callback_aborts (s : State) :
  (forall popup, _mbPopup (this s) = Some popup -> Popup._container popup = None) ->
  _update_callback s = (Ok tt, s).
Proof.
  intros Hpopup. unfold _update_callback. exec.
  destruct (Props.map (props (this s))); [|reflexivity].
  destruct (_mbPopup (this s)) as [popup|]; [|reflexivity].
  now rewrite (Hpopup popup eq_refl).
Qed.

Lemma run_callbacks_abort (cbs : list FrameCallback) (s : State) :
  (forall popup, _mbPopup (this s) = Some popup -> Popup._container popup = None) ->
  run_callbacks cbs s = (replicate (length cbs) (Ok tt), s).
Proof.
  intros Hpopup. induction cbs as [|[] cbs IH]; [reflexivity|].
  cbn. rewrite (update_callback_aborts s Hpopup), IH. reflexivity.
Qed.

(** C6: [componentWillUnmount] twice in a row never raises; the first call
    removes the portal node from its parent (one [removeChild], when it has
    a parent), the second call changes nothing, and after either call the
    portal node has no parent. *)
Theorem unmount_twice (s : State) :
  exists s1,
    componentWillUnmount s = (Ok tt, s1) /\
    componentWillUnmount s1 = (Ok tt, s1) /\
    (forall node, portalNode (this s) = Some node -> parentNode s1 !! node = None) /\
    length (filter is_removeChild (new_calls s s1)) =
      match portalNode (this s) with
      | Some node => if bool_decide (is_Some (parentNode s !! node)) then 1 else 0
      | None => 0
      end /\
    filter is_removeChild (new_calls s1 s1) = [].
Proof.
  destruct (remove_ok s) as (s1 & E & Hpopup & _ & Hportal & Hportal1 & Hcount).
  exists s1. unfold componentWillUnmount.
  repeat split; try assumption.
  - now apply remove_idle.
  - unfold new_calls. now rewrite drop_all.
Qed.

(** C7: after [_remove], the cycles requested before it are still
    requested, and when the frame fires each of them returns at its guard:
    no exception, and the state is the one [_remove] left, the queue of
    requests emptied by the browser. *)
Theorem callbacks_after_remove_abort (s : State) :
  let s1 := (_remove s).2 in
  frameRequests s1 = frameRequests s /\
  _update_callback s1 = (Ok tt, s1) /\
  animationFrame s1 =
    (replicate (length (frameRequests s)) (Ok tt), set_frameRequests [] s1).
Proof.
  destruct (remove_ok s) as (s1 & E & Hpopup & Hfr & _). rewrite E. cbn.
  assert (Hguard : forall popup, _mbPopup (this s1) = Some popup ->
                                 Popup._container popup = None).
  { intros popup Hp. now destruct (Hpopup popup Hp). }
  repeat split; [assumption|now apply update_callback_aborts|].
  unfold animationFrame. rewrite <- Hfr. now apply run_callbacks_abort.
Qed.

End Teardown.

(** ** The synchronize cycle *)

Section Cycle.
Import DrawPopup Notions.
Context `{Mapbox}.

Lemma calculateOffset_ok (s : State) (map : MapId) :
  Props.map (props (this s)) = Some map ->
  _calculateOffset s = (Ok (offset_of (page s) map), s).
Proof. intros Hm. unfold _calculateOffset. exec. now rewrite Hm. Qed.

Lemma setPopup_ok (popup : Popup.t) (s : State) :
  setPopup popup s = (Ok tt, with_popup popup s).
Proof. reflexivity. Qed.

(** [_isLocationChanged] only reads. *)
Lemma isLocationChanged_frame (s : State) : (_isLocationChanged s).2 = s.
Proof.
  unfold _isLocationChanged, iterate. exec.
  destruct (_mbPopup (this s)) as [popup|]; [|reflexivity]. cbn.
  destruct (Popup.getLngLat popup); cbn;
    destruct (truthy _); cbn; try reflexivity;
    destruct (Props.location _); reflexivity.
Qed.

(** What it reads is the rendered coordinate and [props.location]. *)
Lemma isLocationChanged_ext (s s' : State) (popup popup' : Popup.t) :
  _mbPopup (this s) = Some popup ->
  _mbPopup (this s') = Some popup' ->
  Popup._lngLat popup = Popup._lngLat popup' ->
  Props.location (props (this s)) = Props.location (props (this s')) ->
  (_isLocationChanged s).1 = (_isLocationChanged s').1.
Proof.
  intros Hp Hp' Hl Hloc.
  destruct s as [[mb pn pr] pg ls par nn fr cl], s' as [[mb' pn' pr'] pg' ls' par' nn' fr' cl'].
  cbn in Hp, Hp', Hloc. subst mb mb'.
  unfold _isLocationChanged, iterate, Popup.getLngLat. exec.
  rewrite <- Hl.
  destruct (Popup._lngLat popup); cbn; rewrite <- Hloc;
    destruct (truthy _); cbn; try reflexivity;
    destruct (Props.location _); reflexivity.
Qed.

(** An object is not iterable: the array pattern raises. *)
Lemma isLocationChanged_object (s : State) (popup : Popup.t)
    (fields : list (string * JsVal)) :
  _mbPopup (this s) = Some popup ->
  Props.location (props (this s)) = VObj fields ->
  _isLocationChanged s = (Throw TypeError, s).
Proof.
  intros Hp Hloc.
  destruct s as [[mb pn pr] pg ls par nn fr cl]. cbn in Hp, Hloc. subst mb.
  unfold _isLocationChanged, iterate, Popup.getLngLat. exec.
  destruct (Popup._lngLat popup); cbn; rewrite Hloc; reflexivity.
Qed.

Lemma mbPopup_update_spec (s : State) (popup : Popup.t) :
  _mbPopup (this s) = Some popup ->
  mbPopup_update s =
    match Popup_update (page s) popup with
    | Ok popup' =>
        (Ok tt, with_popup popup' (set_calls (calls s ++ [call_popup_update]) s))
    | Throw e => (Throw e, set_calls (calls s ++ [call_popup_update]) s)
    end.
Proof.
  intros Hp. unfold mbPopup_update. exec. rewrite Hp. cbn.
  destruct (Popup_update (page s) popup); reflexivity.
Qed.

Lemma mbPopup_setLngLat_spec (s : State) (popup : Popup.t) (lnglat : JsVal) :
  _mbPopup (this s) = Some popup ->
  mbPopup_setLngLat lnglat s =
    match Popup_setLngLat lnglat (page s) popup with
    | Ok popup' =>
        (Ok tt, with_popup popup' (set_calls (calls s ++ [call_setLngLat lnglat]) s))
    | Throw e => (Throw e, set_calls (calls s ++ [call_setLngLat lnglat]) s)
    end.
Proof.
  intros Hp. unfold mbPopup_setLngLat. exec. rewrite Hp. cbn.
  destruct (Popup_setLngLat lnglat (page s) popup); reflexivity.
Qed.

(** [_calculateAnchorPosition] returns only when the popup has a position
    and a container and the component a map. *)
Lemma calculateAnchorPosition_inv (s s' : State) (popup : Popup.t) (anchor : string) :
  _mbPopup (this s) = Some popup ->
  _calculateAnchorPosition s = (Ok anchor, s') ->
  exists map pos container,
    Props.map (props (this s)) = Some map /\
    Popup._pos popup = Some pos /\
    Popup._container popup = Some container /\
    anchor = anchor_of (page s) map pos container /\ s' = s.
Proof.
  intros Hp E.
  destruct (Props.map (props (this s))) as [map|] eqn:Hm,
           (Popup._pos popup) as [pos|] eqn:Hpos,
           (Popup._container popup) as [container|] eqn:Hc.
  1:{ rewrite (calculateAnchorPosition_ok s popup container map pos Hp Hc Hm Hpos) in E.
      injection E as <- <-. now exists map, pos, container. }
  all: exfalso; revert E; unfold _calculateAnchorPosition; exec;
       rewrite Hp; cbn; rewrite Hc; cbn; rewrite ?Hm; cbn; rewrite ?Hpos;
       discriminate.
Qed.

(** The part of a cycle before the coordinate is compared: past the
    guard, the options are merged and the map bound, which makes no call
    but [on] and [off]. *)
Lemma update_callback_prepare (s : State) (map : MapId) (popup : Popup.t)
    (container content : Element) :
  Props.map (props (this s)) = Some map ->
  _mbPopup (this s) = Some popup ->
  Popup._container popup = Some container ->
  Popup._content popup = Some content ->
  exists s1,
    this s1 = mkComponent
                (Some (Popup.set_map (Some map)
                         (Popup.set_options (merged_options s map popup) popup)))
                (portalNode (this s)) (props (this s)) /\
    page s1 = page s /\
    frameRequests s1 = frameRequests s /\
    calls s1 = calls s ++ rebind_calls (Popup._map popup) [map] /\
    _update_callback s =
      (changed ← _isLocationChanged;
       updated ← (if changed : bool
                  then mbPopup_setLngLat (target_location s) ;; mret true
                  else mret false);
       (if negb updated then mbPopup_update else mret tt) ;;
       anchor ← _calculateAnchorPosition;
       popup ← thePopup;
       setPopup (Popup.set_options
                   (<["anchor" := VStr anchor]> (Popup.options popup)) popup) ;;
       mbPopup_update) s1.
Proof.
  intros Hm Hp Hc Hct.
  set (p0 := Popup.set_options (merged_options s map popup) popup).
  destruct (setMap_ok (with_popup p0 s) p0 map eq_refl)
    as (s1 & E1 & Hthis & Hpg & _ & _ & Hfr & Hcl & _).
  exists s1. repeat split; try assumption.
  unfold _update_callback.
  rewrite (bind_ok get _ s s s eq_refl).
  rewrite Hm, Hp, Hc, Hct.
  rewrite (bind_ok _ _ _ _ _ (calculateOffset_ok s map Hm)).
  rewrite (bind_ok _ _ _ _ _ (setPopup_ok _ s)).
  fold (merged_options s map popup). fold p0.
  now rewrite (bind_ok _ _ _ _ _ E1).
Qed.

(** The part of a cycle after the coordinate is settled: the anchor is
    computed from the popup as it is then, written to the options, and the
    popup refreshed. *)
Lemma update_callback_finish (s2 s' : State) (p2 : Popup.t) (map : MapId) :
  _mbPopup (this s2) = Some p2 ->
  Props.map (props (this s2)) = Some map ->
  (anchor ← _calculateAnchorPosition;
   popup ← thePopup;
   setPopup (Popup.set_options
               (<["anchor" := VStr anchor]> (Popup.options popup)) popup) ;;
   mbPopup_update) s2 = (Ok tt, s') ->
  exists pos container p3,
    Popup._pos p2 = Some pos /\
    Popup._container p2 = Some container /\
    _calculateAnchorPosition s2 = (Ok (anchor_of (page s2) map pos container), s2) /\
    Popup_update (page s2)
      (Popup.set_options
         (<["anchor" := VStr (anchor_of (page s2) map pos container)]> (Popup.options p2))
         p2) = Ok p3 /\
    this s' = mkComponent (Some p3) (portalNode (this s2)) (props (this s2)) /\
    calls s' = calls s2 ++ [call_popup_update].
Proof.
  intros Hp Hm E.
  destruct (_calculateAnchorPosition s2) as [[anchor|e] s2'] eqn:Ea.
  2:{ rewrite (bind_throw _ _ _ _ _ Ea) in E. discriminate. }
  destruct (calculateAnchorPosition_inv s2 s2' p2 anchor Hp Ea)
    as (map' & pos & container & Hm' & Hpos & Hc & -> & ->).
  rewrite Hm in Hm'. injection Hm' as <-.
  rewrite (bind_ok _ _ _ _ _ Ea) in E.
  rewrite (bind_ok _ _ _ _ _ (thePopup_some s2 p2 Hp)) in E.
  rewrite (bind_ok _ _ _ _ _ (setPopup_ok _ s2)) in E.
  set (p2' := Popup.set_options _ p2) in E.
  rewrite (mbPopup_update_spec (with_popup p2' s2) p2' eq_refl) in E. cbn in E.
  destruct (Popup_update (page s2) p2') as [p3|e] eqn:Eu; [|discriminate].
  injection E as <-. exists pos, container, p3. repeat split; assumption.
Qed.

Lemma rebind_calls_no_popup_call (cur : option MapId) (maps : list MapId) :
  filter (fun c => is_popup_update c || is_setLngLat c) (rebind_calls cur maps) = [].
Proof.
  revert cur. induction maps as [|m maps IH]; intros cur; [reflexivity|].
  cbn [rebind_calls]. rewrite filter_app, IH, app_nil_r.
  destruct (decide (Some m = cur)); [reflexivity|].
  now destruct cur.
Qed.


(** C8 fails on the code: with a location given as an object, the shape
    the prop types accept besides the array, a cycle that passes the guard
    raises a TypeError when [_isLocationChanged] takes the location apart as
    an array. *)
Theorem object_location_raises (s : State) (map : MapId) (popup : Popup.t)
    (container content : Element) (fields : list (string * JsVal)) :
  Props.map (props (this s)) = Some map ->
  _mbPopup (this s) = Some popup ->
  Popup._container popup = Some container ->
  Popup._content popup = Some content ->
  Props.location (props (this s)) = VObj fields ->
  (_update_callback s).1 = Throw TypeError.
Proof.
  intros Hm Hp Hc Hct Hloc.
  destruct (update_callback_prepare s map popup container content Hm Hp Hc Hct)
    as (s1 & Hthis & _ & _ & _ & E).
  rewrite E.
  assert (Ethrow : _isLocationChanged s1 = (Throw TypeError, s1)).
  { eapply (isLocationChanged_object s1 _ fields); now rewrite Hthis. }
  now rewrite (bind_throw _ _ _ _ _ Ethrow).
Qed.

(** An absent location reaches the component as the empty array of
    [defaultProps], and that, not [[0, 0]], is what a cycle would hand to
    [setLngLat]. *)
Lemma absent_location_is_empty_array (s : State) (map : option MapId)
    (options : option (gmap string JsVal)) :
  props (this s) = withDefaultProps (Props.mk map VUndefined options) ->
  target_location s = VArr [].
Proof. intros E. unfold target_location. now rewrite E. Qed.


End Cycle.

(** ** Scheduling *)

Section Scheduling.
Import DrawPopup Notions.

Lemma update_schedules (s : State) :
  _update s =
    (Ok tt, set_frameRequests (frameRequests s ++ [update_callback])
              (set_calls (calls s ++ [call_requestAnimationFrame update_callback]) s)).
Proof. reflexivity. Qed.

(** On a component bound to [m], a "move" of [m] runs [_update] once. *)
Lemma Map_fire_move_bound (s : State) (m : MapId) :
  listeners s = bindings (Some m) ->
  Map_fire m move s = (_update s).2.
Proof.
  intros Hb. unfold Map_fire. rewrite Hb. cbn.
  destruct (decide ((m, move) = (m, move))) as [_|NE]; [|now destruct NE].
  destruct (decide ((m, remove) = (m, move))) as [E|_]; [discriminate E|].
  reflexivity.
Qed.

Lemma trigger_schedules (t : Trigger) (s : State) (m : MapId) :
  listeners s = bindings (Some m) ->
  t = propsUpdated \/ t = mapMoved m ->
  listeners (trigger t s) = listeners s /\
  this (trigger t s) = this s /\
  frameRequests (trigger t s) = frameRequests s ++ [update_callback].
Proof.
  intros Hb [-> | ->]; cbn; [|rewrite (Map_fire_move_bound s m Hb)];
    unfold componentDidUpdate; rewrite update_schedules; now cbn.
Qed.

Lemma run_callbacks_length `{Mapbox} (cbs : list FrameCallback) (s : State) :
  length (run_callbacks cbs s).1 = length cbs.
Proof.
  revert s. induction cbs as [|cb cbs IH]; intros s; [reflexivity|].
  cbn. destruct (run_callback cb s) as [r s0]. specialize (IH s0).
  destruct (run_callbacks cbs s0) as [rs s1]. cbn in *. now rewrite IH.
Qed.

Lemma run_callbacks_cycles `{Mapbox} (cbs : list FrameCallback) (s : State) :
  run_callbacks cbs s = Frames.cycles (length cbs) s.
Proof.
  revert s. induction cbs as [|[] cbs IH]; intros s; [reflexivity|].
  cbn. destruct (_update_callback s) as [r s0]. now rewrite IH.
Qed.

(** C3, as the code has it: there is no pending flag.  On a component
    bound to a map, every trigger of a burst, new props or a move of that
    map, requests an animation frame of its own and changes nothing else
    of the component, so a burst of [n] triggers leaves [n] more callbacks
    pending.  The frame then is as many synchronize cycles as there are
    callbacks pending, run one after the other: each is the whole body
    [_update] scheduled, run on the state the cycle before it left, and
    each returns or raises without stopping the next. *)
Theorem burst_schedules_every_trigger `{Mapbox} (ts : list Trigger) (s : State)
    (m : MapId) :
  listeners s = bindings (Some m) ->
  Forall (fun t => t = propsUpdated \/ t = mapMoved m) ts ->
  frameRequests (burst ts s) =
    frameRequests s ++ replicate (length ts) update_callback /\
  this (burst ts s) = this s /\
  animationFrame (burst ts s) =
    Frames.cycles (length (frameRequests s) + length ts)
      (set_frameRequests [] (burst ts s)).
Proof.
  intros Hb Hts.
  assert (Hburst : listeners (burst ts s) = listeners s /\
                   this (burst ts s) = this s /\
                   frameRequests (burst ts s) =
                     frameRequests s ++ replicate (length ts) update_callback).
  { revert s Hb. induction Hts as [|t ts Ht _ IH]; intros s Hb.
    - cbn. now rewrite app_nil_r.
    - destruct (trigger_schedules t s m Hb Ht) as (Hl & Hthis & Hfr).
      cbn [burst foldl]. fold (burst ts (trigger t s)).
      destruct (IH (trigger t s)) as (Hl' & Hthis' & Hfr'); [now rewrite Hl|].
      rewrite Hl', Hthis', Hfr', Hl, Hthis, Hfr, <- app_assoc. now cbn. }
  destruct Hburst as (_ & Hthis & Hfr). repeat split; try assumption.
  unfold animationFrame. rewrite run_callbacks_cycles, Hfr, length_app.
  now rewrite length_replicate.
Qed.

End Scheduling.

(** ** The table storage *)

Section TableStorageRoundTrip.
Import TableStorage TableNotions.

Lemma own_name_written (key : string) :
  own_name key = true -> refused key = false.
Proof.
  unfold own_name. intros [H _]%andb_true_iff. now apply negb_true_iff.
Qed.

Lemma set_nested (fields : gmap string JsVal) (prefix field : string) (v : JsVal) :
  refused prefix = false ->
  refused field = false ->
  set (VObj fields) [prefix; field] v =
    VObj (<[prefix := VObj (<[field := v]> (nested_fields fields prefix))]> fields).
Proof.
  intros Hp Hf. cbn. rewrite Hp. unfold nested_fields.
  destruct (fields !! prefix) as [[]|]; cbn; rewrite Hf; reflexivity.
Qed.

Lemma set_refused (fields : gmap string JsVal) (prefix : string)
    (path : list string) (v : JsVal) :
  refused prefix = true ->
  set (VObj fields) (prefix :: path) v = VObj fields.
Proof. intros Hp. cbn. now rewrite Hp. Qed.

Lemma nested_fields_insert (fields nested : gmap string JsVal) (prefix : string) :
  nested_fields (<[prefix := VObj nested]> fields) prefix = nested.
Proof. unfold nested_fields. now rewrite lookup_insert_eq. Qed.

Lemma get_nested (fields nested : gmap string JsVal) (prefix field : string) :
  get (VObj (<[prefix := VObj nested]> fields)) [prefix; field] =
    default VUndefined (nested !! field).
Proof. cbn. rewrite lookup_insert_eq. now destruct (nested !! field). Qed.

Lemma Storage_get_set (storage : gmap string JsVal) (key : string) (v : JsVal) :
  Storage.get (Storage.set storage key v) key = v.
Proof. unfold Storage.get, Storage.set. now rewrite lookup_insert_eq. Qed.

Lemma or_object (fields : gmap string JsVal) (v : JsVal) :
  or (VObj fields) v = VObj fields.
Proof. reflexivity. Qed.

(** The root the helpers work on is an object as soon as the entry under
    [STORAGE_KEY] is absent, falsy or an object. *)
Lemma root_is_object (v : JsVal) :
  truthy v = false \/ isObject v = true ->
  exists fields, or v (VObj ∅) = VObj fields.
Proof.
  intros [Hf | Ho]; unfold or.
  - rewrite Hf. now exists ∅.
  - destruct v; try discriminate. now exists fields.
Qed.

(** C10, as the code has it: when the entry of the storage under
    [STORAGE_KEY] is absent, falsy or a plain object, the key prefix is
    none of the keys lodash [set] refuses and none of the names a plain
    object inherits, and that object holds nothing, [null], [undefined] or
    an object under the prefix, the getter applied after the setter, with
    the same prefix, returns the four written values, a falsy one as
    [undefined]. *)
Theorem tableStorage_roundtrip (STORAGE_KEY keyPrefix : string)
    (storage : gmap string JsVal) (state : TableState) :
  truthy (Storage.get storage STORAGE_KEY) = false \/
  isObject (Storage.get storage STORAGE_KEY) = true ->
  own_name keyPrefix = true ->
  nullish_or_object
    (entry_below (or (Storage.get storage STORAGE_KEY) (VObj ∅)) keyPrefix) = true ->
  tableStorageGetter STORAGE_KEY keyPrefix
    (tableStorageSetter STORAGE_KEY keyPrefix storage state).1 =
  mkTableState (stored (pageIndex state)) (stored (filterText state))
    (stored (sortKey state)) (stored (sortOrder state)).
Proof.
  intros Hroot Hown%own_name_written _.
  destruct (root_is_object _ Hroot) as (fields & Eroot).
  unfold tableStorageGetter, tableStorageSetter. cbn [fst].
  rewrite Eroot.
  rewrite !set_nested by (assumption || reflexivity).
  rewrite !nested_fields_insert.
  rewrite Storage_get_set, or_object.
  rewrite !get_nested.
  rewrite lookup_insert_eq.
  rewrite (lookup_insert_ne _ "sortOrder" "sortKey") by discriminate.
  rewrite lookup_insert_eq.
  do 2 rewrite (lookup_insert_ne _ _ "pageIndex") by discriminate.
  rewrite lookup_insert_eq.
  do 3 rewrite (lookup_insert_ne _ _ "filterText") by discriminate.
  rewrite lookup_insert_eq.
  reflexivity.
Qed.

Lemma tableStorage_roundtrip_witness :
  truthy (Storage.get ∅ sample_key) = false /\
  own_name "nodes" = true /\
  nullish_or_object (entry_below (or (Storage.get ∅ sample_key) (VObj ∅)) "nodes")
    = true /\
  tableStorageGetter sample_key "nodes"
    (tableStorageSetter sample_key "nodes" ∅ sample_state).1 = sample_state.
Proof.
  split; [reflexivity|]. split; [reflexivity|]. split; [reflexivity|].
  exact (tableStorage_roundtrip sample_key "nodes" ∅ sample_state
           (or_introl eq_refl) eq_refl eq_refl).
Defined.

(** Under a key lodash [set] refuses, nothing is written: on an empty
    storage the setter returns the empty object and the getter reads
    nothing back. *)
Example refused_prefix_not_written :
  (tableStorageSetter sample_key "constructor" ∅ sample_state).2 = VObj ∅ /\
  tableStorageGetter sample_key "constructor"
    (tableStorageSetter sample_key "constructor" ∅ sample_state).1
    = mkTableState VUndefined VUndefined VUndefined VUndefined.
Proof. split; vm_compute; reflexivity. Qed.

(** A string under the key prefix is read through its length and its
    characters, and replaced by an object when the setter writes. *)
Example string_under_the_prefix :
  get (VObj (<["nodes" := VStr "abc"]> ∅)) ["nodes"; "length"] = VNum 3 /\
  get (VObj (<["nodes" := VStr "abc"]> ∅)) ["nodes"; "1"] = VStr "b" /\
  get (VObj (<["nodes" := VStr "abc"]> ∅)) ["nodes"; "3"] = VUndefined /\
  get (VObj (<["nodes" := VStr "abc"]> ∅)) ["nodes"; "01"] = VUndefined /\
  get (set (VObj (<["nodes" := VStr "abc"]> ∅)) ["nodes"; "filterText"] (VStr "x"))
      ["nodes"; "length"] = VUndefined.
Proof. repeat split; vm_compute; reflexivity. Qed.

(** C10 as stated fails: when the entry under the key is a number, lodash
    [set] leaves it alone, nothing is written, and the getter returns
    [undefined] for values that were truthy. *)
Lemma tableStorage_number_entry_not_written :
  truthy (filterText sample_state) = true /\
  truthy (pageIndex sample_state) = true /\
  (tableStorageSetter sample_key "nodes" number_storage sample_state).1
    = number_storage /\
  tableStorageGetter sample_key "nodes"
    (tableStorageSetter sample_key "nodes" number_storage sample_state).1
    = mkTableState VUndefined VUndefined VUndefined VUndefined.
Proof. repeat split; vm_compute; reflexivity. Qed.

End TableStorageRoundTrip.

(** ** Witnesses on the page of [Fixture] *)

Section Witnesses.
Import DrawPopup Notions Fixture.
#[local] Existing Instance flat_map.

Lemma pinned_popup :
  exists popup : Popup.t,
    _mbPopup (this pinned) = Some popup /\
    Popup._container popup = Some box /\
    Popup._content popup = Some box /\
    Popup._pos popup = Some (Point.mk 100 380) /\
    Popup._map popup = Some 7.
Proof. eexists. split; [compute_eq|]. repeat split. Qed.

Lemma pinned_map : Props.map (props (this pinned)) = Some 7.
Proof. compute_eq. Qed.

Lemma calculateAnchorPosition_tags_witness :
  exists popup : Popup.t,
    _mbPopup (this pinned) = Some popup /\
    Popup._container popup = Some box /\
    Props.map (props (this pinned)) = Some 7 /\
    Popup._pos popup = Some (Point.mk 100 380) /\
    anchorComponents (Point.mk 100 380) (offsetWidth box) (offsetHeight box)
      (getBoundingClientRect (page pinned) 7)
      (clientHeight (page pinned)) (clientWidth (page pinned)) = ["bottom"] /\
    _calculateAnchorPosition pinned = (Ok "bottom", pinned).
Proof.
  destruct pinned_popup as (popup & Hp & Hc & _ & Hpos & _).
  destruct (calculateAnchorPosition_tags pinned popup box 7 (Point.mk 100 380)
              Hp Hc pinned_map Hpos) as (Etags & E).
  exists popup.
  split; [exact Hp|]. split; [exact Hc|]. split; [exact pinned_map|].
  split; [exact Hpos|]. split.
  - rewrite Etags. compute_eq.
  - rewrite E. compute_eq.
Defined.

Lemma calculateAnchorPosition_anchors_witness :
  exists (popup : Popup.t) (anchor : string),
    _mbPopup (this pinned) = Some popup /\
    Popup._container popup = Some box /\
    Props.map (props (this pinned)) = Some 7 /\
    Popup._pos popup = Some (Point.mk 100 380) /\
    _calculateAnchorPosition pinned = (Ok anchor, pinned) /\
    (anchor ∈ anchors).
Proof.
  destruct pinned_popup as (popup & Hp & Hc & _ & Hpos & _).
  destruct (calculateAnchorPosition_anchors pinned popup box 7 (Point.mk 100 380)
              Hp Hc pinned_map Hpos) as (anchor & v & h & E & Ha & _).
  exists popup, anchor.
  split; [exact Hp|]. split; [exact Hc|]. split; [exact pinned_map|].
  split; [exact Hpos|]. split; [exact E|exact Ha].
Defined.


Lemma pinned_bound : listeners pinned = bindings (Some 7).
Proof. compute_eq. Qed.

Lemma pinned_cycle_completes :
  _update_callback pinned = (Ok tt, (_update_callback pinned).2).
Proof.
  assert (E : (_update_callback pinned).1 = Ok tt) by compute_eq.
  destruct (_update_callback pinned) as [r s']. cbn in *. now subst r.
Qed.

Lemma flat_map_keeps_options (pg : Page) (p p' : Popup.t) :
  Popup_update pg p = Ok p' -> Popup.options p' = Popup.options p.
Proof.
  cbn. intros [= <-]. unfold refresh.
  destruct (Popup._map p), (Popup._lngLat p), (Popup._content p); reflexivity.
Qed.

Lemma burst_schedules_every_trigger_witness :
  listeners pinned = bindings (Some 7) /\
  Forall (fun t => t = propsUpdated \/ t = mapMoved 7) [propsUpdated; mapMoved 7] /\
  frameRequests two_triggers =
    frameRequests pinned ++ [update_callback; update_callback] /\
  animationFrame two_triggers =
    Frames.cycles (length (frameRequests pinned) + 2)
      (set_frameRequests [] two_triggers).
Proof.
  assert (Hts : Forall (fun t => t = propsUpdated \/ t = mapMoved 7)
                  [propsUpdated; mapMoved 7]).
  { constructor; [now left|]. constructor; [now right|]. constructor. }
  split; [exact pinned_bound|]. split; [exact Hts|].
  destruct (burst_schedules_every_trigger [propsUpdated; mapMoved 7] pinned 7
              pinned_bound Hts) as (Hfr & _ & Hframe).
  split; [exact Hfr|exact Hframe].
Defined.

(** C3 as stated fails: two triggers before the frame leave two callbacks
    pending, and the frame runs two cycles, each with its forced refresh
    and its last refresh of the popup. *)
Lemma burst_of_two_runs_two_cycles :
  frameRequests pinned = [] /\
  frameRequests two_triggers = [update_callback; update_callback] /\
  (animationFrame two_triggers).1 = [Ok tt; Ok tt] /\
  filter is_popup_update (new_calls two_triggers (animationFrame two_triggers).2) =
    [call_popup_update; call_popup_update; call_popup_update; call_popup_update].
Proof. repeat split; compute_eq. Qed.


Lemma setMap_one_surface_bound_witness :
  exists (popup : Popup.t) (s1 : State),
    _mbPopup (this pinned) = Some popup /\
    listeners pinned = bindings (Popup._map popup) /\
    setMaps [7; 9; 3] pinned = (Ok tt, s1) /\
    listeners s1 = bindings (Some 3) /\
    calls s1 = calls pinned ++ unbind_calls (Some 7) ++ bind_calls 9
                            ++ unbind_calls (Some 9) ++ bind_calls 3.
Proof.
  destruct pinned_popup as (popup & Hp & _ & _ & _ & Hm).
  assert (Hb : listeners pinned = bindings (Popup._map popup)).
  { rewrite Hm. exact pinned_bound. }
  destruct (setMap_one_surface_bound [7; 9; 3] pinned popup Hp Hb)
    as (s1 & popup1 & E & _ & Hm1 & Hb1 & _ & Hcl & _).
  exists popup, s1.
  split; [exact Hp|]. split; [exact Hb|]. split; [exact E|]. split.
  - now rewrite Hb1, Hm1, Hm.
  - now rewrite Hcl, Hm.
Defined.

Lemma object_location_raises_witness :
  exists popup : Popup.t,
    Props.map (props (this rendered_with_object)) = Some 7 /\
    _mbPopup (this rendered_with_object) = Some popup /\
    Popup._container popup = Some box /\
    Popup._content popup = Some box /\
    Props.location (props (this rendered_with_object)) =
      VObj [("lon", VNum 10); ("lat", VNum 20)] /\
    (_update_callback rendered_with_object).1 = Throw TypeError.
Proof.
  assert (Hp : exists popup, _mbPopup (this rendered_with_object) = Some popup /\
                             Popup._container popup = Some box /\
                             Popup._content popup = Some box).
  { eexists. split; [compute_eq|]. split; reflexivity. }
  destruct Hp as (popup & Hp & Hc & Hct).
  assert (Hm : Props.map (props (this rendered_with_object)) = Some 7) by compute_eq.
  assert (Hloc : Props.location (props (this rendered_with_object)) =
                 VObj [("lon", VNum 10); ("lat", VNum 20)]) by compute_eq.
  exists popup.
  split; [exact Hm|]. split; [exact Hp|]. split; [exact Hc|].
  split; [exact Hct|]. split; [exact Hloc|].
  exact (object_location_raises rendered_with_object 7 popup box box _ Hm Hp Hc Hct Hloc).
Defined.



End Witnesses.

(** * Further properties *)

(** ** What the operations leave alone *)

Section Keeping.
Import DrawPopup Notions Frames.
Context {V : Type} (view : State -> V).

Lemma keeps_bind {A B : Type} (m : M A) (f : A -> M B) :
  keeps view m -> (forall a, keeps view (f a)) -> keeps view (m ≫= f).
Proof.
  intros Hm Hf s. unfold mbind, M_bind. specialize (Hm s).
  destruct (m s) as [[a|e] s0]; cbn in *; [|exact Hm].
  rewrite <- Hm. apply Hf.
Qed.

Lemma keeps_ret {A : Type} (a : A) : keeps view (mret a).
Proof. intros s. reflexivity. Qed.

Lemma keeps_throw {A : Type} (e : Error) : keeps view (throw e : M A).
Proof. intros s. reflexivity. Qed.

Lemma keeps_get : keeps view get.
Proof. intros s. reflexivity. Qed.

Lemma keeps_modify (f : State -> State) :
  (forall s, view (f s) = view s) -> keeps view (modify f).
Proof. intros Hf s. apply Hf. Qed.

Lemma keeps_nonNull {A : Type} (o : option A) : keeps view (nonNull o).
Proof. destruct o; [apply keeps_ret|apply keeps_throw]. Qed.

Lemma keeps_thePopup : keeps view thePopup.
Proof. apply keeps_bind; [apply keeps_get|intros s; apply keeps_nonNull]. Qed.

Lemma keeps_iterate (v : JsVal) : keeps view (iterate v).
Proof. destruct v; first [apply keeps_ret|apply keeps_throw]. Qed.

(** A view that ignores the popup and the call log. *)
Hypothesis view_popup : forall p s, view (with_popup p s) = view s.
Hypothesis view_calls : forall c s, view (set_calls c s) = view s.

Lemma keeps_setPopup (p : Popup.t) : keeps view (setPopup p).
Proof. apply keeps_modify. intros s. apply view_popup. Qed.

Lemma keeps_record (c : Call) : keeps view (record c).
Proof. apply keeps_modify. intros s. apply view_calls. Qed.

Lemma keeps_mbPopup_update `{Mapbox} : keeps view mbPopup_update.
Proof.
  apply keeps_bind; [apply keeps_thePopup|intros p].
  apply keeps_bind; [apply keeps_record|intros _].
  apply keeps_bind; [apply keeps_get|intros s].
  destruct (Popup_update (page s) p); [apply keeps_setPopup|apply keeps_throw].
Qed.

Lemma keeps_mbPopup_setLngLat `{Mapbox} (lnglat : JsVal) :
  keeps view (mbPopup_setLngLat lnglat).
Proof.
  apply keeps_bind; [apply keeps_thePopup|intros p].
  apply keeps_bind; [apply keeps_record|intros _].
  apply keeps_bind; [apply keeps_get|intros s].
  destruct (Popup_setLngLat lnglat (page s) p); [apply keeps_setPopup|apply keeps_throw].
Qed.

Lemma keeps_calculateAnchorPosition : keeps view _calculateAnchorPosition.
Proof.
  apply keeps_bind; [apply keeps_get|intros s].
  apply keeps_bind; [apply keeps_thePopup|intros p].
  apply keeps_bind; [apply keeps_nonNull|intros c].
  apply keeps_bind; [apply keeps_nonNull|intros m].
  apply keeps_bind; [apply keeps_nonNull|intros pos].
  apply keeps_ret.
Qed.

Lemma keeps_calculateOffset : keeps view _calculateOffset.
Proof.
  apply keeps_bind; [apply keeps_get|intros s].
  apply keeps_bind; [apply keeps_nonNull|intros m]. apply keeps_ret.
Qed.

Lemma keeps_isLocationChanged : keeps view _isLocationChanged.
Proof.
  apply keeps_bind; [apply keeps_thePopup|intros p].
  destruct (Popup.getLngLat p).
  all: apply keeps_bind; [apply keeps_get|intros s].
  all: apply keeps_bind; [apply keeps_iterate|intros elems]; apply keeps_ret.
Qed.

(** The part of a cycle after the map is bound. *)
Lemma keeps_cycle_after_binding `{Mapbox} (location : JsVal) :
  keeps view
    (changed ← _isLocationChanged;
     updated ← (if changed : bool
                then mbPopup_setLngLat location ;; mret true
                else mret false);
     (if negb updated then mbPopup_update else mret tt) ;;
     anchor ← _calculateAnchorPosition;
     popup ← thePopup;
     setPopup (Popup.set_options
                 (<["anchor" := VStr anchor]> (Popup.options popup)) popup) ;;
     mbPopup_update).
Proof.
  apply keeps_bind; [apply keeps_isLocationChanged|intros changed].
  apply keeps_bind.
  { destruct changed; [|apply keeps_ret].
    apply keeps_bind; [apply keeps_mbPopup_setLngLat|intros _; apply keeps_ret]. }
  intros updated. apply keeps_bind.
  { destruct updated; [apply keeps_ret|apply keeps_mbPopup_update]. }
  intros _. apply keeps_bind; [apply keeps_calculateAnchorPosition|intros anchor].
  apply keeps_bind; [apply keeps_thePopup|intros p].
  apply keeps_bind; [apply keeps_setPopup|intros _]. apply keeps_mbPopup_update.
Qed.

(** A view that ignores the listeners as well. *)
Hypothesis view_listeners : forall l s, view (set_listeners l s) = view s.

Lemma keeps_Map_on (m : MapId) (e : MapEvent) (h : Handler) :
  keeps view (Map_on m e h).
Proof.
  apply keeps_bind; [apply keeps_record|intros _].
  apply keeps_modify. intros s. apply view_listeners.
Qed.

Lemma keeps_Map_off (m : MapId) (e : MapEvent) (h : Handler) :
  keeps view (Map_off m e h).
Proof.
  apply keeps_bind; [apply keeps_record|intros _].
  apply keeps_modify. intros s. apply view_listeners.
Qed.

Lemma keeps_removeMap : keeps view _removeMap.
Proof.
  apply keeps_bind; [apply keeps_thePopup|intros p].
  destruct (Popup._map p); [|apply keeps_ret].
  apply keeps_bind; [apply keeps_Map_off|intros _].
  apply keeps_bind; [apply keeps_Map_off|intros _].
  apply keeps_bind; [apply keeps_thePopup|intros p']. apply keeps_setPopup.
Qed.

Lemma keeps_setMap (map : MapId) : keeps view (_setMap map).
Proof.
  apply keeps_bind; [apply keeps_thePopup|intros p].
  destruct (decide (Some map = Popup._map p)); [apply keeps_ret|].
  apply keeps_bind; [apply keeps_removeMap|intros _].
  apply keeps_bind; [apply keeps_thePopup|intros p'].
  apply keeps_bind; [apply keeps_setPopup|intros _].
  apply keeps_bind; [apply keeps_Map_on|intros _]. apply keeps_Map_on.
Qed.

Lemma keeps_update_callback `{Mapbox} : keeps view _update_callback.
Proof.
  apply keeps_bind; [apply keeps_get|intros s].
  destruct (Props.map (props (this s))) as [map|]; [|apply keeps_ret].
  destruct (_mbPopup (this s)) as [popup|]; [|apply keeps_ret].
  destruct (Popup._container popup); [|apply keeps_ret].
  destruct (Popup._content popup); [|apply keeps_ret].
  apply keeps_bind; [apply keeps_calculateOffset|intros offset].
  apply keeps_bind; [apply keeps_setPopup|intros _].
  apply keeps_bind; [apply keeps_setMap|intros _].
  apply keeps_cycle_after_binding.
Qed.

End Keeping.

(** ** What a step appends to the call log *)

Section Logging.
Import DrawPopup Notions Frames.
Context (P : Call -> Prop).

Lemma logs_keeps {A : Type} (m : M A) : keeps calls m -> logs P m.
Proof.
  intros Hk s. exists []. rewrite Hk, app_nil_r. split; [reflexivity|constructor].
Qed.

Lemma logs_bind {A B : Type} (m : M A) (f : A -> M B) :
  logs P m -> (forall a, logs P (f a)) -> logs P (m ≫= f).
Proof.
  intros Hm Hf s. unfold mbind, M_bind. destruct (Hm s) as (e1 & E1 & F1).
  destruct (m s) as [[a|e] s0]; cbn in *.
  - destruct (Hf a s0) as (e2 & E2 & F2). exists (e1 ++ e2).
    rewrite E2, E1, app_assoc. split; [reflexivity|].
    apply Forall_app. now split.
  - now exists e1.
Qed.

Lemma logs_ret {A : Type} (a : A) : logs P (mret a).
Proof. apply logs_keeps, keeps_ret. Qed.

Lemma logs_throw {A : Type} (e : Error) : logs P (throw e : M A).
Proof. apply logs_keeps, keeps_throw. Qed.

Lemma logs_thePopup : logs P thePopup.
Proof. apply logs_keeps, keeps_thePopup. Qed.

Lemma logs_setPopup (p : Popup.t) : logs P (setPopup p).
Proof. apply logs_keeps, keeps_setPopup. reflexivity. Qed.

Lemma logs_record (c : Call) : P c -> logs P (record c).
Proof.
  intros Hc s. exists [c]. split; [reflexivity|]. constructor; [exact Hc|constructor].
Qed.

Lemma logs_mbPopup_update `{Mapbox} : P call_popup_update -> logs P mbPopup_update.
Proof.
  intros Hc.
  apply logs_bind; [apply logs_thePopup|intros p].
  apply logs_bind; [now apply logs_record|intros _].
  apply logs_bind; [apply logs_keeps, keeps_get|intros s].
  destruct (Popup_update (page s) p); [apply logs_setPopup|apply logs_throw].
Qed.

Lemma logs_mbPopup_setLngLat `{Mapbox} (lnglat : JsVal) :
  P (call_setLngLat lnglat) -> logs P (mbPopup_setLngLat lnglat).
Proof.
  intros Hc.
  apply logs_bind; [apply logs_thePopup|intros p].
  apply logs_bind; [now apply logs_record|intros _].
  apply logs_bind; [apply logs_keeps, keeps_get|intros s].
  destruct (Popup_setLngLat lnglat (page s) p); [apply logs_setPopup|apply logs_throw].
Qed.

(** The end of a cycle: the anchor, its assignment and the last refresh. *)
Lemma logs_cycle_end `{Mapbox} (updated : bool) :
  P call_popup_update ->
  logs P
    ((if negb updated then mbPopup_update else mret tt) ;;
     anchor ← _calculateAnchorPosition;
     popup ← thePopup;
     setPopup (Popup.set_options
                 (<["anchor" := VStr anchor]> (Popup.options popup)) popup) ;;
     mbPopup_update).
Proof.
  intros Hc. apply logs_bind.
  { destruct updated; [apply logs_ret|now apply logs_mbPopup_update]. }
  intros _.
  apply logs_bind; [apply logs_keeps, keeps_calculateAnchorPosition|intros anchor].
  apply logs_bind; [apply logs_thePopup|intros p].
  apply logs_bind; [apply logs_setPopup|intros _].
  now apply logs_mbPopup_update.
Qed.

End Logging.

(** ** More on the synchronize cycle *)

Section MoreCycle.
Import DrawPopup Notions Frames.
Context `{Mapbox}.

Lemma surroundings_with_popup (p : Popup.t) (s : State) :
  surroundings (with_popup p s) = surroundings s.
Proof. reflexivity. Qed.

Lemma surroundings_set_calls (c : list Call) (s : State) :
  surroundings (set_calls c s) = surroundings s.
Proof. reflexivity. Qed.

Lemma surroundings_set_listeners (l : list Listener) (s : State) :
  surroundings (set_listeners l s) = surroundings s.
Proof. reflexivity. Qed.

Lemma run_callbacks_keep_surroundings (cbs : list FrameCallback) (s : State) :
  surroundings (run_callbacks cbs s).2 = surroundings s.
Proof.
  revert s. induction cbs as [|[] cbs IH]; intros s; [reflexivity|].
  cbn. pose proof (keeps_update_callback surroundings surroundings_with_popup
                     surroundings_set_calls surroundings_set_listeners s) as Hcb.
  destruct (_update_callback s) as [r s0]. specialize (IH s0).
  destruct (run_callbacks cbs s0) as [rs s1]. cbn in *. congruence.
Qed.

(** X1: an animation frame leaves no callback pending (a cycle never
    requests another frame), and whatever the cycles do, return, abort or
    raise, the frame changes neither the DOM tree, nor the portal node,
    nor the props, nor the geometry of the page. *)
Theorem animationFrame_drains (s : State) :
  frameRequests (animationFrame s).2 = [] /\
  parentNode (animationFrame s).2 = parentNode s /\
  portalNode (this (animationFrame s).2) = portalNode (this s) /\
  props (this (animationFrame s).2) = props (this s) /\
  page (animationFrame s).2 = page s.
Proof.
  unfold animationFrame.
  pose proof (run_callbacks_keep_surroundings (frameRequests s)
                (set_frameRequests [] s)) as Hk.
  unfold surroundings in Hk. cbn in Hk.
  injection Hk as Hpg Hpar _ Hfr Hpn Hpr. repeat split; assumption.
Qed.

(** X2: a cycle is a no-op, no call made and no state changed, as soon as
    the map prop is missing, or the popup, or the container or the content
    reference of the popup. *)
Theorem cycle_without_geometry_is_noop (s : State) :
  Props.map (props (this s)) = None \/
  (forall popup, _mbPopup (this s) = Some popup ->
     Popup._container popup = None \/ Popup._content popup = None) ->
  _update_callback s = (Ok tt, s).
Proof.
  intros Hg. unfold _update_callback. exec.
  destruct (Props.map (props (this s))) as [map|]; [|reflexivity].
  destruct Hg as [Hg|Hg]; [discriminate|].
  destruct (_mbPopup (this s)) as [popup|]; [|reflexivity].
  destruct (Hg popup eq_refl) as [-> | ->]; [reflexivity|].
  now destruct (Popup._container popup).
Qed.

Lemma bound_prepare (s : State) (map : MapId) (popup : Popup.t)
    (container content : Element) :
  Props.map (props (this s)) = Some map ->
  _mbPopup (this s) = Some popup ->
  Popup._container popup = Some container ->
  Popup._content popup = Some content ->
  listeners s = bindings (Popup._map popup) ->
  exists s1,
    listeners s1 = bindings (Some map) /\
    _update_callback s =
      (changed ← _isLocationChanged;
       updated ← (if changed : bool
                  then mbPopup_setLngLat (target_location s) ;; mret true
                  else mret false);
       (if negb updated then mbPopup_update else mret tt) ;;
       anchor ← _calculateAnchorPosition;
       popup ← thePopup;
       setPopup (Popup.set_options
                   (<["anchor" := VStr anchor]> (Popup.options popup)) popup) ;;
       mbPopup_update) s1.
Proof.
  intros Hm Hp Hc Hct Hb.
  set (p0 := Popup.set_options (merged_options s map popup) popup).
  destruct (setMap_bound (with_popup p0 s) p0 map eq_refl Hb)
    as (s1 & popup1 & E1 & _ & _ & Hb1 & _).
  exists s1. split; [exact Hb1|].
  unfold _update_callback.
  rewrite (bind_ok get _ s s s eq_refl).
  rewrite Hm, Hp, Hc, Hct.
  rewrite (bind_ok _ _ _ _ _ (calculateOffset_ok s map Hm)).
  rewrite (bind_ok _ _ _ _ _ (setPopup_ok _ s)).
  fold (merged_options s map popup). fold p0.
  now rewrite (bind_ok _ _ _ _ _ E1).
Qed.

(** X3: on a component subscribed to the map its popup points to (or to
    none), a cycle that passes the guard leaves it subscribed to the map
    of the props and to no other, whether the cycle then completes or
    raises in mapbox-gl or in the anchor computation. *)
Theorem cycle_binds_the_map_of_the_props (s : State) (map : MapId)
    (popup : Popup.t) (container content : Element) :
  Props.map (props (this s)) = Some map ->
  _mbPopup (this s) = Some popup ->
  Popup._container popup = Some container ->
  Popup._content popup = Some content ->
  listeners s = bindings (Popup._map popup) ->
  listeners (_update_callback s).2 = bindings (Some map).
Proof.
  intros Hm Hp Hc Hct Hb.
  destruct (bound_prepare s map popup container content Hm Hp Hc Hct Hb)
    as (s1 & Hb1 & E).
  rewrite E, <- Hb1.
  now apply (keeps_cycle_after_binding listeners).
Qed.

(** The steps of a cycle that passes the guard and completes. *)
Lemma completed_cycle_steps (s s' : State) (map : MapId) (popup : Popup.t)
    (container content : Element) :
  Props.map (props (this s)) = Some map ->
  _mbPopup (this s) = Some popup ->
  Popup._container popup = Some container ->
  Popup._content popup = Some content ->
  _update_callback s = (Ok tt, s') ->
  exists (changed : bool) (p2 : Popup.t) (pos : Point.t) (container2 : Element)
         (p3 : Popup.t),
    let p1 := Popup.set_map (Some map)
                (Popup.set_options (merged_options s map popup) popup) in
    (_isLocationChanged s).1 = Ok changed /\
    (if changed then Popup_setLngLat (target_location s) (page s) p1
     else Popup_update (page s) p1) = Ok p2 /\
    Popup._pos p2 = Some pos /\
    Popup._container p2 = Some container2 /\
    Popup_update (page s)
      (Popup.set_options
         (<["anchor" := VStr (anchor_of (page s) map pos container2)]>
            (Popup.options p2)) p2) = Ok p3 /\
    _mbPopup (this s') = Some p3 /\
    new_calls s s' =
      rebind_calls (Popup._map popup) [map]
      ++ [if changed then call_setLngLat (target_location s) else call_popup_update]
      ++ [call_popup_update].
Proof.
  intros Hm Hp Hc Hct E'.
  destruct (update_callback_prepare s map popup container content Hm Hp Hc Hct)
    as (s1 & Hthis & Hpg & _ & Hcl & E).
  rewrite E in E'. clear E.
  set (p1 := Popup.set_map _ _) in *.
  assert (Hp1 : _mbPopup (this s1) = Some p1) by now rewrite Hthis.
  assert (Hm1 : Props.map (props (this s1)) = Some map) by now rewrite Hthis.
  apply bind_ok_inv in E'. destruct E' as (changed & s1' & Echg & E').
  pose proof (isLocationChanged_frame s1) as Hfrm. rewrite Echg in Hfrm.
  cbn in Hfrm. subst s1'.
  assert (Hchg : (_isLocationChanged s).1 = Ok changed).
  { rewrite <- (isLocationChanged_ext s1 s p1 popup Hp1 Hp).
    - now rewrite Echg.
    - now destruct popup.
    - now rewrite Hthis. }
  apply bind_ok_inv in E'. destruct E' as (updated & s2 & Eupd & E').
  apply bind_ok_inv_unit in E'. destruct E' as (s3 & Eforce & E').
  assert (exists p2,
            (if changed then Popup_setLngLat (target_location s) (page s) p1
             else Popup_update (page s) p1) = Ok p2 /\
            s3 = with_popup p2
                   (set_calls (calls s1 ++ [if changed
                                            then call_setLngLat (target_location s)
                                            else call_popup_update]) s1))
    as (p2 & Estep & ->).
  { destruct changed.
    - apply bind_ok_inv_unit in Eupd. destruct Eupd as (s2' & Eset & Eret).
      injection Eret as <- <-. cbn in Eforce. injection Eforce as <-.
      rewrite (mbPopup_setLngLat_spec s1 p1 _ Hp1), Hpg in Eset.
      destruct (Popup_setLngLat _ _ p1) as [p2|e]; [|discriminate].
      injection Eset as <-. now exists p2.
    - injection Eupd as <- <-. cbn in Eforce.
      rewrite (mbPopup_update_spec s1 p1 Hp1), Hpg in Eforce.
      destruct (Popup_update _ p1) as [p2|e]; [|discriminate].
      injection Eforce as <-. now exists p2. }
  set (s3 := with_popup p2 _) in E'.
  destruct (update_callback_finish s3 s' p2 map eq_refl Hm1 E')
    as (pos & c2 & p3 & Hpos & Hc2 & _ & Eu3 & Hthis' & Hcl').
  cbn in Eu3, Hcl'. rewrite Hpg in Eu3.
  exists changed, p2, pos, c2, p3. cbn zeta.
  split; [exact Hchg|]. split; [exact Estep|]. split; [exact Hpos|].
  split; [exact Hc2|]. split; [exact Eu3|]. split; [now rewrite Hthis'|].
  unfold new_calls. now rewrite Hcl', Hcl, <- !app_assoc, drop_app_length.
Qed.

(** X4: in a cycle that passes the guard, finds the coordinate changed and
    completes, the popup is handed the location of the props ([[0, 0]] when
    it is [undefined]) once, the forced refresh is skipped, and the only
    other call on the popup is the refresh after the anchor is set; the
    anchor is computed from the position and container [setLngLat] left. *)
Theorem changed_location_is_set_once (s s' : State) (map : MapId)
    (popup : Popup.t) (container content : Element) :
  Props.map (props (this s)) = Some map ->
  _mbPopup (this s) = Some popup ->
  Popup._container popup = Some container ->
  Popup._content popup = Some content ->
  _isLocationChanged s = (Ok true, s) ->
  _update_callback s = (Ok tt, s') ->
  popup_calls (new_calls s s') =
    [call_setLngLat (target_location s); call_popup_update] /\
  exists p2 pos container2 p3,
    Popup_setLngLat (target_location s) (page s)
      (Popup.set_map (Some map)
         (Popup.set_options (merged_options s map popup) popup)) = Ok p2 /\
    Popup._pos p2 = Some pos /\
    Popup._container p2 = Some container2 /\
    Popup_update (page s)
      (Popup.set_options
         (<["anchor" := VStr (anchor_of (page s) map pos container2)]>
            (Popup.options p2)) p2) = Ok p3 /\
    _mbPopup (this s') = Some p3.
Proof.
  intros Hm Hp Hc Hct Hchg E.
  destruct (completed_cycle_steps s s' map popup container content Hm Hp Hc Hct E)
    as (changed & p2 & pos & c2 & p3 & Hchg' & Estep & Hpos & Hc2 & Eu & Hp3 & Hcalls).
  rewrite Hchg in Hchg'. injection Hchg' as <-.
  split.
  - rewrite Hcalls. unfold popup_calls.
    now rewrite filter_app, rebind_calls_no_popup_call.
  - now exists p2, pos, c2, p3.
Qed.

(** X5: when the two methods of mapbox-gl leave the options of the popup
    alone, a cycle that passes the guard and completes ends with the merged
    options and the computed anchor: every option the caller supplied,
    but an anchor, is there with the caller's value; the offset is the
    computed one unless the caller supplied one; and every other option
    the popup had is kept. *)
Theorem completed_cycle_options (s s' : State) (map : MapId)
    (popup : Popup.t) (container content : Element) :
  Props.map (props (this s)) = Some map ->
  _mbPopup (this s) = Some popup ->
  Popup._container popup = Some container ->
  Popup._content popup = Some content ->
  (forall pg p p', Popup_update pg p = Ok p' -> Popup.options p' = Popup.options p) ->
  (forall v pg p p', Popup_setLngLat v pg p = Ok p' ->
                     Popup.options p' = Popup.options p) ->
  _update_callback s = (Ok tt, s') ->
  exists p3 anchor,
    _mbPopup (this s') = Some p3 /\
    Popup.options p3 = <["anchor" := VStr anchor]> (merged_options s map popup) /\
    (forall k v, k <> "anchor" ->
       default ∅ (Props.options (props (this s))) !! k = Some v ->
       Popup.options p3 !! k = Some v) /\
    (default ∅ (Props.options (props (this s))) !! "offset" = None ->
     Popup.options p3 !! "offset" = Some (offset_of (page s) map)) /\
    (forall k, k <> "anchor" -> k <> "offset" ->
       default ∅ (Props.options (props (this s))) !! k = None ->
       Popup.options p3 !! k = Popup.options popup !! k).
Proof.
  intros Hm Hp Hc Hct Hupd Hset E.
  destruct (completed_cycle_steps s s' map popup container content Hm Hp Hc Hct E)
    as (changed & p2 & pos & c2 & p3 & _ & Estep & _ & _ & Eu & Hp3 & _).
  assert (Ho2 : Popup.options p2 = merged_options s map popup).
  { destruct changed; [apply Hset in Estep|apply Hupd in Estep];
      rewrite Estep; reflexivity. }
  assert (Ho3 : Popup.options p3 =
                <["anchor" := VStr (anchor_of (page s) map pos c2)]>
                  (merged_options s map popup)).
  { apply Hupd in Eu. now rewrite Eu, <- Ho2. }
  exists p3, (anchor_of (page s) map pos c2).
  split; [exact Hp3|]. split; [exact Ho3|]. rewrite Ho3. unfold merged_options.
  split; [|split].
  - intros k v Hk Hkv. rewrite lookup_insert_ne by congruence.
    now apply lookup_union_Some_l.
  - intros Hoff. rewrite lookup_insert_ne by discriminate.
    rewrite lookup_union_r by assumption.
    rewrite lookup_insert_ne by discriminate. apply lookup_insert_eq.
  - intros k Hk Hk' Hnone. rewrite lookup_insert_ne by congruence.
    rewrite lookup_union_r by assumption.
    now rewrite !lookup_insert_ne by congruence.
Qed.

End MoreCycle.

(** ** Lifecycle: mounting, map removal, unmounting *)

Section Lifecycle.
Import DrawPopup Notions Frames.
Context `{Mapbox}.

Lemma Map_fire_silent (s : State) (m : MapId) (e : MapEvent) :
  listeners s = [] -> Map_fire m e s = s.
Proof. intros Hl. unfold Map_fire. now rewrite Hl. Qed.

(** X6: when the map the component is bound to fires "remove", the
    component unsubscribes from it ([off] for "move" and for "remove") and
    forgets it; no frame is requested, and from then on no event of any
    map reaches the component. *)
Theorem map_removal_unbinds (s : State) (popup : Popup.t) (m : MapId) :
  _mbPopup (this s) = Some popup ->
  Popup._map popup = Some m ->
  listeners s = bindings (Some m) ->
  listeners (Map_fire m remove s) = [] /\
  this (Map_fire m remove s) =
    mkComponent (Some (Popup.set_map None popup))
      (portalNode (this s)) (props (this s)) /\
  new_calls s (Map_fire m remove s) = unbind_calls (Some m) /\
  frameRequests (Map_fire m remove s) = frameRequests s /\
  (forall m' e, Map_fire m' e (Map_fire m remove s) = Map_fire m remove s).
Proof.
  intros Hp Hm Hb.
  destruct (removeMap_ok s popup Hp)
    as (s1 & E & Hthis & _ & _ & _ & Hfr & Hcl & Hls).
  rewrite Hm, Hb, bindings_removed in Hls. rewrite Hm in Hcl.
  assert (Efire : Map_fire m remove s = s1).
  { unfold Map_fire. rewrite Hb. cbn.
    destruct (decide ((m, move) = (m, remove))) as [E'|_]; [discriminate E'|].
    destruct (decide ((m, remove) = (m, remove))) as [_|NE]; [|now destruct NE].
    now rewrite E. }
  rewrite Efire. repeat split; try assumption.
  - unfold new_calls. now rewrite Hcl, drop_app_length.
  - intros m' e. now apply Map_fire_silent.
Qed.

(** The two halves of [_remove]: the references and the map, then the
    portal node. *)
Lemma remove_steps (s : State) (popup : Popup.t) :
  _mbPopup (this s) = Some popup ->
  exists s1,
    _removeMap
      (with_popup (Popup.set_content None (Popup.set_container None popup)) s)
      = (Ok tt, s1) /\
    _remove s =
      (s ← get;
       match portalNode (this s) with
       | Some node =>
           match parentNode s !! node with
           | Some parent => Node_removeChild parent node ;; setPortalNode None
           | None => mret tt
           end
       | None => mret tt
       end) s1.
Proof.
  intros Hp.
  set (p0 := Popup.set_content None (Popup.set_container None popup)).
  destruct (removeMap_ok (with_popup p0 s) p0 eq_refl) as (s1 & E & _).
  exists s1. split; [exact E|].
  assert (Hpart :
    (setPopup (Popup.set_container None popup) ;;
     popup ← thePopup;
     setPopup (Popup.set_content None popup) ;;
     _removeMap) s = (Ok tt, s1)).
  { rewrite (bind_ok _ _ _ _ _ (setPopup_ok _ s)).
    rewrite (bind_ok thePopup _ _ _ _ (thePopup_some (with_popup _ s) _ eq_refl)).
    rewrite (bind_ok _ _ _ _ _ (setPopup_ok _ _)).
    exact E. }
  unfold _remove. rewrite (bind_ok get _ s s s eq_refl). rewrite Hp.
  exact (bind_ok _ _ s s1 tt Hpart).
Qed.

Lemma keeps_portal_removal {V : Type} (view : State -> V) :
  (forall d s, view (set_parentNode d s) = view s) ->
  (forall c s, view (set_calls c s) = view s) ->
  (forall n s, view (set_this (mkComponent (_mbPopup (this s)) n (props (this s))) s)
               = view s) ->
  keeps view
    (s ← get;
     match portalNode (this s) with
     | Some node =>
         match parentNode s !! node with
         | Some parent => Node_removeChild parent node ;; setPortalNode None
         | None => mret tt
         end
     | None => mret tt
     end).
Proof.
  intros Hd Hc Hn.
  apply keeps_bind; [apply keeps_get|intros s].
  destruct (portalNode (this s)) as [node|]; [|apply keeps_ret].
  destruct (parentNode s !! node) as [parent|]; [|apply keeps_ret].
  apply keeps_bind.
  - apply keeps_bind; [apply keeps_modify; intros s0; apply Hc|intros _].
    apply keeps_bind; [apply keeps_get|intros s0].
    destruct (decide _); [|apply keeps_throw].
    apply keeps_modify. intros s1. apply Hd.
  - intros _. apply keeps_modify. intros s0. apply Hn.
Qed.

(** X7: unmounting a component that is subscribed to the map of its popup
    releases the subscriptions: no listener is left, so no event of any map
    can reach the component afterwards. *)
Theorem unmount_releases_the_map (s : State) (popup : Popup.t) :
  _mbPopup (this s) = Some popup ->
  listeners s = bindings (Popup._map popup) ->
  listeners (componentWillUnmount s).2 = [] /\
  (forall m e, Map_fire m e (componentWillUnmount s).2 = (componentWillUnmount s).2).
Proof.
  intros Hp Hb. unfold componentWillUnmount.
  assert (Hl : listeners (_remove s).2 = []).
  { destruct (remove_steps s popup Hp) as (s1 & E1 & E). rewrite E.
    rewrite (keeps_portal_removal listeners) by reflexivity.
    set (p0 := Popup.set_content None (Popup.set_container None popup)) in E1.
    destruct (removeMap_ok (with_popup p0 s) p0 eq_refl)
      as (s1' & E1' & _ & _ & _ & _ & _ & _ & Hls).
    rewrite E1 in E1'. injection E1' as <-.
    rewrite Hls. cbn. rewrite Hb.
    destruct (Popup._map popup) as [m|]; [apply bindings_removed|reflexivity]. }
  split; [exact Hl|]. intros m e. now apply Map_fire_silent.
Qed.

(** X8: on a page where the next node identifier is not yet in the tree,
    the constructor attaches a new portal node to [document.body], and
    unmounting gives the tree back as it was before the constructor. *)
Theorem mount_then_unmount_restores_the_tree (props : Props.t) (s : State) :
  parentNode s !! nextNode s = None ->
  (constructor props s).1 = Ok tt /\
  portalNode (this (constructor props s).2) = Some (nextNode s) /\
  parentNode (constructor props s).2 = <[nextNode s := document_body]> (parentNode s) /\
  (componentWillUnmount (constructor props s).2).1 = Ok tt /\
  parentNode (componentWillUnmount (constructor props s).2).2 = parentNode s /\
  portalNode (this (componentWillUnmount (constructor props s).2).2) = None.
Proof.
  intros Hfresh.
  set (n := nextNode s).
  set (popup := Popup_new (Props.options props)).
  assert (Ec : constructor props s =
               (Ok tt,
                set_parentNode (<[n := document_body]> (parentNode s))
                  (set_calls (calls s ++ [call_appendChild document_body n])
                     (set_this (mkComponent (Some popup) (Some n) props)
                        (set_nextNode (S n) s))))) by reflexivity.
  rewrite Ec. cbn [fst snd]. set (s0 := set_parentNode _ _).
  split; [reflexivity|]. split; [reflexivity|]. split; [reflexivity|].
  unfold componentWillUnmount.
  destruct (remove_steps s0 popup eq_refl) as (s1 & E1 & E).
  set (p0 := Popup.set_content None (Popup.set_container None popup)) in E1.
  destruct (removeMap_ok (with_popup p0 s0) p0 eq_refl)
    as (s1' & E1' & Hthis & _ & Hpar & _).
  rewrite E1 in E1'. injection E1' as <-. cbn in Hthis, Hpar.
  rewrite E. clear E E1.
  destruct s1 as [c1 pg1 ls1 par1 nn1 fr1 cl1]. cbn in Hthis, Hpar. subst c1 par1.
  unfold Node_removeChild. exec.
  rewrite lookup_insert_eq. cbn.
  rewrite lookup_insert_eq. cbn. rewrite decide_True by reflexivity. cbn.
  rewrite delete_insert_id by assumption. repeat split.
Qed.

(** X9: [_isLocationChanged] raises, a TypeError, exactly when the
    location of the props is truthy and neither an array nor a string; it
    never changes the state; and for a location that is falsy or the empty
    array it answers whether the popup has a coordinate. *)
Theorem isLocationChanged_raises_iff (s : State) (popup : Popup.t) :
  _mbPopup (this s) = Some popup ->
  ((_isLocationChanged s).1 = Throw TypeError <->
   truthy (Props.location (props (this s))) = true /\
   iterable (Props.location (props (this s))) = false) /\
  (_isLocationChanged s).2 = s /\
  (truthy (Props.location (props (this s))) = false \/
   Props.location (props (this s)) = VArr [] ->
   (_isLocationChanged s).1 = Ok (bool_decide (is_Some (Popup._lngLat popup)))).
Proof.
  intros Hp. split; [|split; [apply isLocationChanged_frame|]].
  all: destruct s as [[mb pn pr] pg ls par nn fr cl]; cbn in Hp; subst mb.
  all: unfold _isLocationChanged, iterate, Popup.getLngLat; exec.
  all: destruct (Popup._lngLat popup) as [l|]; cbn.
  all: destruct (Props.location pr) as [| |b|a|str|elems|fields] eqn:El; cbn.
  all: try destruct b; try destruct (number_truthy a); try destruct str; cbn.
  all: try (split; [intros E; try discriminate E|intros [E1 E2]; discriminate]).
  all: try (split; [reflexivity|intros _; reflexivity]).
  all: try (intros [E|E]; try discriminate E; try reflexivity).
  all: try (split; [intros _; split; reflexivity|reflexivity]).
  all: try (injection E as ->; reflexivity).
Qed.

(** X10: with props that went through [defaultProps], the fallback
    [[0, 0]] of the cycle never applies.  In a cycle that passes the guard
    and finds the coordinate changed, the first call on the popup is
    [setLngLat] with the location of the props, whether the cycle then
    completes or raises; and when the caller gave no location that
    location is the empty array of [defaultProps]. *)
Theorem defaults_of_the_cycle_never_apply (p : Props.t) (s : State) (map : MapId)
    (popup : Popup.t) (container content : Element) :
  props (this s) = withDefaultProps p ->
  Props.map (props (this s)) = Some map ->
  _mbPopup (this s) = Some popup ->
  Popup._container popup = Some container ->
  Popup._content popup = Some content ->
  (_isLocationChanged s).1 = Ok true ->
  (exists rest,
     popup_calls (new_calls s (_update_callback s).2) =
       call_setLngLat (Props.location (props (this s))) :: rest) /\
  (Props.location p = VUndefined -> Props.location (props (this s)) = VArr []).
Proof.
  intros Eprops Hm Hp Hc Hct Hchanged. split; [|rewrite Eprops; cbn; now intros ->].
  assert (Eloc : target_location s = Props.location (props (this s))).
  { unfold target_location. rewrite Eprops. cbn. now destruct (Props.location p). }
  destruct (update_callback_prepare s map popup container content Hm Hp Hc Hct)
    as (s1 & Hthis & Hpg & _ & Hcl & E).
  set (p1 := Popup.set_map _ _) in Hthis.
  assert (Hp1 : _mbPopup (this s1) = Some p1) by now rewrite Hthis.
  assert (Echg : _isLocationChanged s1 = (Ok true, s1)).
  { pose proof (isLocationChanged_frame s1) as Hfrm.
    pose proof (isLocationChanged_ext s1 s p1 popup Hp1 Hp) as Hext.
    rewrite Hchanged in Hext.
    destruct (_isLocationChanged s1) as [r s1']. cbn in *. subst s1'.
    rewrite Hext; [reflexivity|now destruct popup|now rewrite Hthis]. }
  rewrite E, (bind_ok _ _ _ _ _ Echg), Eloc. cbv iota.
  set (location := Props.location (props (this s))).
  set (logged := set_calls (calls s1 ++ [call_setLngLat location]) s1).
  pose proof (mbPopup_setLngLat_spec s1 p1 location Hp1) as Eset. fold logged in Eset.
  assert (Hlogged : forall extra,
            popup_calls (drop (length (calls s)) (calls logged ++ extra)) =
              call_setLngLat location :: popup_calls extra).
  { intros extra. subst logged. cbn. rewrite Hcl, <- !app_assoc, drop_app_length.
    unfold popup_calls. rewrite !filter_app, rebind_calls_no_popup_call.
    reflexivity. }
  destruct (Popup_setLngLat location (page s1) p1) as [p2|e].
  - pose proof (bind_ok _ (fun _ : unit => mret true) _ _ _ Eset) as Eupd.
    rewrite (bind_ok _ _ _ _ _ Eupd).
    destruct (logs_cycle_end (fun _ => True) true I (with_popup p2 logged))
      as (extra & Eextra & _).
    exists (popup_calls extra). unfold new_calls. rewrite Eextra. apply Hlogged.
  - pose proof (bind_throw _ (fun _ : unit => mret true) _ _ _ Eset) as Eupd.
    rewrite (bind_throw _ _ _ _ _ Eupd). cbn [snd].
    exists []. unfold new_calls.
    rewrite <- (app_nil_r (calls logged)). apply Hlogged.
Qed.

End Lifecycle.

(** ** Convergence of the coordinate *)

Section Convergence.
Import DrawPopup Notions Frames.
Context `{Mapbox}.

Lemma isLocationChanged_pair (s : State) (popup : Popup.t) (lng lat a b : number)
    (rest : list JsVal) :
  _mbPopup (this s) = Some popup ->
  Popup._lngLat popup = Some (LngLat.mk lng lat) ->
  Props.location (props (this s)) = VArr (VNum a :: VNum b :: rest) ->
  _isLocationChanged s =
    (Ok (negb (PrimFloat.eqb lng a) || negb (PrimFloat.eqb lat b)), s).
Proof.
  intros Hp Hl Hloc.
  destruct s as [[mb pn pr] pg ls par nn fr cl]. cbn in Hp, Hloc. subst mb.
  unfold _isLocationChanged, iterate, Popup.getLngLat. exec.
  rewrite Hl. cbn. rewrite Hloc. reflexivity.
Qed.

(** X11: when [setLngLat] of mapbox-gl stores the pair it is given and
    the refresh keeps the coordinate, a cycle that passes the guard and
    completes, for a location [[a, b]] of two numbers that are not NaN,
    leaves the component with nothing to change: [_isLocationChanged]
    answers false afterwards, so the next cycle does not call [setLngLat]
    again. *)
Theorem completed_cycle_settles_the_coordinate (s s' : State) (map : MapId)
    (popup : Popup.t) (container content : Element) (a b : number) :
  Props.map (props (this s)) = Some map ->
  _mbPopup (this s) = Some popup ->
  Popup._container popup = Some container ->
  Popup._content popup = Some content ->
  Props.location (props (this s)) = VArr [VNum a; VNum b] ->
  PrimFloat.eqb a a = true ->
  PrimFloat.eqb b b = true ->
  (forall pg p p', Popup_update pg p = Ok p' -> Popup._lngLat p' = Popup._lngLat p) ->
  (forall pg p p', Popup_setLngLat (VArr [VNum a; VNum b]) pg p = Ok p' ->
                   Popup._lngLat p' = Some (LngLat.mk a b)) ->
  _update_callback s = (Ok tt, s') ->
  _isLocationChanged s' = (Ok false, s').
Proof.
  intros Hm Hp Hc Hct Hloc Ha Hb Hupd Hset E.
  destruct (completed_cycle_steps s s' map popup container content Hm Hp Hc Hct E)
    as (changed & p2 & pos & c2 & p3 & Hchg & Estep & _ & _ & Eu & Hp3 & _).
  assert (Hprops : props (this s') = props (this s)).
  { pose proof (keeps_update_callback surroundings surroundings_with_popup
                  surroundings_set_calls surroundings_set_listeners s) as Hk.
    rewrite E in Hk. unfold surroundings in Hk. cbn in Hk. congruence. }
  assert (Hloc' : Props.location (props (this s')) = VArr [VNum a; VNum b])
    by now rewrite Hprops.
  apply Hupd in Eu. cbn in Eu.
  pose proof (isLocationChanged_frame s') as Hfrm.
  destruct changed.
  - unfold target_location in Estep. rewrite Hloc in Estep.
    apply Hset in Estep. rewrite Estep in Eu.
    rewrite (isLocationChanged_pair s' p3 a b a b [] Hp3 Eu Hloc').
    now rewrite Ha, Hb.
  - apply Hupd in Estep. cbn in Estep.
    pose proof (isLocationChanged_ext s' s p3 popup Hp3 Hp) as Hext.
    rewrite Hchg in Hext.
    destruct (_isLocationChanged s') as [r s'']. cbn in *. subst s''.
    rewrite Hext; [reflexivity| |congruence].
    rewrite Eu, Estep. now destruct popup.
Qed.

End Convergence.

(** ** More on the table storage *)

Section MoreTableStorage.
Import TableStorage TableNotions StorageNotions.
Variable STORAGE_KEY : string.

Lemma set_non_object (v : JsVal) (path : list string) (value : JsVal) :
  isObject v = false -> set v path value = v.
Proof. intros Hv. destruct path, v; try reflexivity; discriminate. Qed.

Lemma or_empty_truthy (v : JsVal) : truthy (or v (VObj ∅)) = true.
Proof. unfold or. now destruct (truthy v) eqn:E. Qed.

Lemma or_empty_again (v : JsVal) : or (or v (VObj ∅)) (VObj ∅) = or v (VObj ∅).
Proof. unfold or at 1. now rewrite or_empty_truthy. Qed.

(** What the four [set] leave of an object. *)
Lemma four_sets_on_object (fields : gmap string JsVal) (keyPrefix : string)
    (state : TableState) :
  refused keyPrefix = false ->
  set (set (set (set (VObj fields)
    [keyPrefix; "filterText"] (or (filterText state) VUndefined))
    [keyPrefix; "pageIndex"] (or (pageIndex state) VUndefined))
    [keyPrefix; "sortKey"] (or (sortKey state) VUndefined))
    [keyPrefix; "sortOrder"] (or (sortOrder state) VUndefined)
  = VObj (<[keyPrefix := VObj (written_fields state (nested_fields fields keyPrefix))]>
            fields).
Proof.
  intros Hp. rewrite !set_nested by (assumption || reflexivity).
  rewrite !nested_fields_insert, !insert_insert_eq. reflexivity.
Qed.

(** The setter, on the root the storage holds. *)
Lemma setter_on_root (keyPrefix : string) (storage : gmap string JsVal)
    (state : TableState) :
  tableStorageSetter STORAGE_KEY keyPrefix storage state =
    (let written :=
       written_root keyPrefix state (or (Storage.get storage STORAGE_KEY) (VObj ∅)) in
     (<[STORAGE_KEY := written]> storage, written)).
Proof.
  unfold tableStorageSetter, Storage.set, written_root. cbn zeta.
  destruct (or (Storage.get storage STORAGE_KEY) (VObj ∅)) as [| |b|a|str|fields] eqn:E.
  6: { destruct (refused keyPrefix) eqn:Hp.
       - now rewrite !set_refused by assumption.
       - now rewrite four_sets_on_object. }
  all: now rewrite !set_non_object by reflexivity.
Qed.

(** The root the getter sees after the setter. *)
Lemma root_after_setter (keyPrefix : string) (storage : gmap string JsVal)
    (state : TableState) :
  or (Storage.get (tableStorageSetter STORAGE_KEY keyPrefix storage state).1
        STORAGE_KEY) (VObj ∅)
  = (tableStorageSetter STORAGE_KEY keyPrefix storage state).2.
Proof.
  rewrite setter_on_root. cbn zeta. cbn [fst snd].
  unfold Storage.get. rewrite lookup_insert_eq. cbn [default].
  pose proof (or_empty_truthy (default VNull (storage !! STORAGE_KEY))) as Ht.
  fold (Storage.get storage STORAGE_KEY) in *. unfold written_root.
  destruct (or (Storage.get storage STORAGE_KEY) (VObj ∅)) as [| |b|a|str|fields];
    try discriminate; try destruct (refused keyPrefix);
    unfold or; cbn in *; now rewrite ?Ht.
Qed.

(** X12: writing the state of one table leaves what the getter returns
    for every other key prefix as it was, whatever the storage held. *)
Theorem setter_leaves_other_prefixes (keyPrefix other : string)
    (storage : gmap string JsVal) (state : TableState) :
  other <> keyPrefix ->
  tableStorageGetter STORAGE_KEY other
    (tableStorageSetter STORAGE_KEY keyPrefix storage state).1
  = tableStorageGetter STORAGE_KEY other storage.
Proof.
  intros Hne. unfold tableStorageGetter. rewrite root_after_setter.
  rewrite setter_on_root. cbn zeta. cbn [snd]. unfold written_root.
  destruct (or (Storage.get storage STORAGE_KEY) (VObj ∅)) as [| |b|a|str|fields];
    try reflexivity.
  destruct (refused keyPrefix); [reflexivity|].
  cbn. now rewrite !lookup_insert_ne by congruence.
Qed.

(** X13: the setter touches only the four properties it owns. When the
    key prefix is a name lodash writes under and a plain object does not
    inherit, and the stored object holds nothing, [null], [undefined] or
    an object under it, any other property under the prefix, of a name a
    plain object does not inherit, reads the same before and after. *)
Theorem setter_leaves_other_properties (keyPrefix field : string)
    (storage : gmap string JsVal) (state : TableState) :
  field ∉ owned_fields ->
  inherited field = false ->
  own_name keyPrefix = true ->
  nullish_or_object
    (entry_below (or (Storage.get storage STORAGE_KEY) (VObj ∅)) keyPrefix) = true ->
  get (tableStorageSetter STORAGE_KEY keyPrefix storage state).2 [keyPrefix; field]
  = get (or (Storage.get storage STORAGE_KEY) (VObj ∅)) [keyPrefix; field].
Proof.
  intros Hf _ Hown%own_name_written Hbelow.
  rewrite setter_on_root. cbn zeta. cbn [snd]. unfold written_root.
  destruct (or (Storage.get storage STORAGE_KEY) (VObj ∅)) as [| |b|a|str|fields];
    try reflexivity.
  rewrite Hown. rewrite get_nested. unfold written_fields.
  assert (Hne : field <> "filterText" /\ field <> "pageIndex" /\
                field <> "sortKey" /\ field <> "sortOrder").
  { unfold owned_fields in Hf. rewrite !not_elem_of_cons in Hf. tauto. }
  destruct Hne as (H1 & H2 & H3 & H4).
  rewrite !lookup_insert_ne by congruence.
  cbn in *. unfold nested_fields.
  destruct (fields !! keyPrefix) as [[| |b|a|str|nested]|];
    try reflexivity; discriminate.
Qed.

(** The getter on an object that holds an object under the prefix. *)
Lemma getter_fields (fields nested : gmap string JsVal) (keyPrefix field : string) :
  fields !! keyPrefix = Some (VObj nested) ->
  get (VObj fields) [keyPrefix; field] = default VUndefined (nested !! field).
Proof. intros E. cbn. rewrite E. now destruct (nested !! field). Qed.

Lemma read_written (state : TableState) (nested : gmap string JsVal) :
  default VUndefined (written_fields state nested !! "filterText")
    = stored (filterText state) /\
  default VUndefined (written_fields state nested !! "pageIndex")
    = stored (pageIndex state) /\
  default VUndefined (written_fields state nested !! "sortKey")
    = stored (sortKey state) /\
  default VUndefined (written_fields state nested !! "sortOrder")
    = stored (sortOrder state).
Proof.
  unfold written_fields. repeat split.
  - do 3 rewrite (lookup_insert_ne _ _ "filterText") by discriminate.
    now rewrite lookup_insert_eq.
  - do 2 rewrite (lookup_insert_ne _ _ "pageIndex") by discriminate.
    now rewrite lookup_insert_eq.
  - rewrite (lookup_insert_ne _ _ "sortKey") by discriminate.
    now rewrite lookup_insert_eq.
  - now rewrite lookup_insert_eq.
Qed.

(** Once the root is an object, the getter reads back what the setter
    wrote under a key lodash writes under. *)
Lemma getter_after_setter_on_object (keyPrefix : string)
    (storage : gmap string JsVal) (state : TableState) (fields : gmap string JsVal) :
  refused keyPrefix = false ->
  or (Storage.get storage STORAGE_KEY) (VObj ∅) = VObj fields ->
  tableStorageGetter STORAGE_KEY keyPrefix
    (tableStorageSetter STORAGE_KEY keyPrefix storage state).1
  = read_back state.
Proof.
  intros Hp Eroot. unfold tableStorageGetter. rewrite root_after_setter.
  rewrite setter_on_root. cbn zeta. cbn [snd]. rewrite Eroot.
  unfold written_root. rewrite Hp.
  rewrite !(getter_fields _ _ _ _ (lookup_insert_eq _ _ _)).
  destruct (read_written state (nested_fields fields keyPrefix))
    as (-> & -> & -> & ->).
  reflexivity.
Qed.

(** X14: the last write wins. When the entry of the storage under
    [STORAGE_KEY] is absent, falsy or a plain object, the key prefix is a
    name lodash writes under and a plain object does not inherit, and the
    object holds nothing, [null], [undefined] or an object under it, two
    writes for the same key prefix read back as the second state alone, a
    falsy value of the second state hiding the value the first state had
    there. *)
Theorem last_write_wins (keyPrefix : string) (storage : gmap string JsVal)
    (first second : TableState) :
  truthy (Storage.get storage STORAGE_KEY) = false \/
  isObject (Storage.get storage STORAGE_KEY) = true ->
  own_name keyPrefix = true ->
  nullish_or_object
    (entry_below (or (Storage.get storage STORAGE_KEY) (VObj ∅)) keyPrefix) = true ->
  tableStorageGetter STORAGE_KEY keyPrefix
    (tableStorageSetter STORAGE_KEY keyPrefix
       (tableStorageSetter STORAGE_KEY keyPrefix storage first).1 second).1
  = read_back second.
Proof.
  intros Hroot Hown%own_name_written _.
  destruct (root_is_object _ Hroot) as (fields & Eroot).
  pose proof (root_after_setter keyPrefix storage first) as Eafter.
  rewrite setter_on_root in Eafter at 2. cbn zeta in Eafter. cbn [snd] in Eafter.
  rewrite Eroot in Eafter. unfold written_root in Eafter. rewrite Hown in Eafter.
  exact (getter_after_setter_on_object keyPrefix _ second _ Hown Eafter).
Qed.

(** X15: for a key prefix that is not a name a plain object inherits, the
    getter returns [undefined] for the four properties when the storage
    has no entry under [STORAGE_KEY] or a falsy one, and when the entry is
    a plain object that has nothing under the key prefix. *)
Theorem getter_of_a_missing_entry (keyPrefix : string) (storage : gmap string JsVal) :
  inherited keyPrefix = false ->
  truthy (Storage.get storage STORAGE_KEY) = false \/
  (exists fields, Storage.get storage STORAGE_KEY = VObj fields /\
                  fields !! keyPrefix = None) ->
  tableStorageGetter STORAGE_KEY keyPrefix storage = nothing_stored.
Proof.
  intros _ [Hf | (fields & E & Hnone)]; unfold tableStorageGetter, or.
  - rewrite Hf. cbn. now rewrite lookup_empty.
  - rewrite E. cbn. now rewrite Hnone.
Qed.

(** X16: when the entry under [STORAGE_KEY] is truthy and not an object (a
    number, a string, [true]), the setter writes nothing: the storage is
    left as it was and the value returned is that entry. *)
Theorem setter_on_a_primitive_entry (keyPrefix : string)
    (storage : gmap string JsVal) (state : TableState) (entry : JsVal) :
  storage !! STORAGE_KEY = Some entry ->
  truthy entry = true ->
  isObject entry = false ->
  tableStorageSetter STORAGE_KEY keyPrefix storage state = (storage, entry).
Proof.
  intros He Ht Ho.
  assert (Eroot : or (Storage.get storage STORAGE_KEY) (VObj ∅) = entry).
  { unfold Storage.get, or. rewrite He. cbn. now rewrite Ht. }
  rewrite setter_on_root. cbn zeta. rewrite Eroot. unfold written_root.
  destruct entry; try discriminate; now rewrite (insert_id _ _ _ He).
Qed.

End MoreTableStorage.

(** ** The variant with [addTo] and [remove] *)

Section AddToVariant.
Import DrawPopup Notions Frames.
Context `{Mapbox} `{DrawPopupAddTo.MapboxAttach}.

Lemma mbPopup_addTo_spec (s : State) (popup : Popup.t) (map : MapId) :
  _mbPopup (this s) = Some popup ->
  DrawPopupAddTo.mbPopup_addTo map s =
    match DrawPopupAddTo.Popup_addTo map (page s) popup with
    | Ok popup' => (Ok tt, with_popup popup' s)
    | Throw e => (Throw e, s)
    end.
Proof.
  intros Hp. unfold DrawPopupAddTo.mbPopup_addTo. exec. rewrite Hp. cbn.
  destruct (DrawPopupAddTo.Popup_addTo map (page s) popup); reflexivity.
Qed.

Lemma mbPopup_remove_spec (s : State) (popup : Popup.t) :
  _mbPopup (this s) = Some popup ->
  DrawPopupAddTo.mbPopup_remove s =
    match DrawPopupAddTo.Popup_remove popup with
    | Ok popup' => (Ok tt, with_popup popup' s)
    | Throw e => (Throw e, s)
    end.
Proof.
  intros Hp. unfold DrawPopupAddTo.mbPopup_remove. exec. rewrite Hp. cbn.
  destruct (DrawPopupAddTo.Popup_remove popup); reflexivity.
Qed.

Lemma keeps_addTo_cycle {V : Type} (view : State -> V) :
  (forall p s, view (with_popup p s) = view s) ->
  (forall c s, view (set_calls c s) = view s) ->
  keeps view DrawPopupAddTo._update_callback.
Proof.
  intros Hpopup Hcalls.
  apply keeps_bind; [apply keeps_get|intros s].
  destruct (Props.map (props (this s))) as [map|]; [|apply keeps_ret].
  apply keeps_bind; [apply keeps_thePopup|intros popup].
  destruct (Popup._container popup); [|apply keeps_ret].
  destruct (Popup._content popup); [|apply keeps_ret].
  apply keeps_bind; [apply keeps_calculateOffset|intros offset].
  apply keeps_bind; [now apply keeps_setPopup|intros _].
  apply keeps_bind; [apply keeps_isLocationChanged|intros changed].
  apply keeps_bind.
  { destruct changed; [|apply keeps_ret].
    apply keeps_bind; [now apply keeps_mbPopup_setLngLat|intros _; apply keeps_ret]. }
  intros updated. apply keeps_bind; [apply keeps_thePopup|intros p].
  apply keeps_bind.
  { destruct (decide _); [apply keeps_ret|].
    apply keeps_bind; [|intros _; apply keeps_ret].
    apply keeps_bind; [apply keeps_thePopup|intros p'].
    apply keeps_bind; [apply keeps_get|intros s0].
    destruct (DrawPopupAddTo.Popup_addTo _ _ _);
      [now apply keeps_setPopup|apply keeps_throw]. }
  intros updated'. apply keeps_bind.
  { destruct updated'; [apply keeps_ret|now apply keeps_mbPopup_update]. }
  intros _. apply keeps_bind; [apply keeps_calculateAnchorPosition|intros anchor].
  apply keeps_bind; [apply keeps_thePopup|intros p'].
  apply keeps_bind; [now apply keeps_setPopup|intros _].
  now apply keeps_mbPopup_update.
Qed.

Lemma logs_addTo_cycle (P : Call -> Prop) :
  P call_popup_update ->
  (forall lnglat, P (call_setLngLat lnglat)) ->
  logs P DrawPopupAddTo._update_callback.
Proof.
  intros Hupdate Hset.
  apply logs_bind; [apply logs_keeps, keeps_get|intros s].
  destruct (Props.map (props (this s))) as [map|]; [|apply logs_ret].
  apply logs_bind; [apply logs_thePopup|intros popup].
  destruct (Popup._container popup); [|apply logs_ret].
  destruct (Popup._content popup); [|apply logs_ret].
  apply logs_bind; [apply logs_keeps, keeps_calculateOffset|intros offset].
  apply logs_bind; [apply logs_setPopup|intros _].
  apply logs_bind; [apply logs_keeps, keeps_isLocationChanged|intros changed].
  apply logs_bind.
  { destruct changed; [|apply logs_ret].
    apply logs_bind; [now apply logs_mbPopup_setLngLat|intros _; apply logs_ret]. }
  intros updated. apply logs_bind; [apply logs_thePopup|intros p].
  apply logs_bind.
  { destruct (decide _); [apply logs_ret|].
    apply logs_bind; [|intros _; apply logs_ret].
    apply logs_bind; [apply logs_thePopup|intros p'].
    apply logs_bind; [apply logs_keeps, keeps_get|intros s0].
    destruct (DrawPopupAddTo.Popup_addTo _ _ _);
      [apply logs_setPopup|apply logs_throw]. }
  intros updated'. now apply logs_cycle_end.
Qed.

(** X17: the cycle of the variant with [addTo] makes no call of its own
    to [on] or [off] of a map, requests no frame and removes no node:
    whether it completes, aborts or raises, it only appends to the log of
    the calls the component makes, and what it appends are [setLngLat] and
    [_update] calls on the popup.  Attaching the popup to the map is left
    to [addTo] of mapbox-gl. *)
Theorem addTo_cycle_never_subscribes (s : State) :
  exists extra : list Call,
    calls (DrawPopupAddTo._update_callback s).2 = calls s ++ extra /\
    Forall (fun c => is_popup_update c || is_setLngLat c = true) extra.
Proof.
  apply (logs_addTo_cycle (fun c => is_popup_update c || is_setLngLat c = true));
    reflexivity.
Qed.

(** X18: [componentWillUnmount] of the variant with [addTo] hands
    [remove] of mapbox-gl a popup whose container and content are null,
    whatever they were.  When [remove] returns, the portal node is detached
    from its parent with one [removeChild] (none when it has no parent) and
    has no parent afterwards; when [remove] raises, the unmount raises
    and the DOM tree is left as it was, the portal node still attached. *)
Theorem addTo_unmount (s : State) (popup : Popup.t) (node : NodeId) :
  _mbPopup (this s) = Some popup ->
  portalNode (this s) = Some node ->
  match DrawPopupAddTo.Popup_remove
          (Popup.set_content None (Popup.set_container None popup)) with
  | Ok popup' =>
      exists s',
        DrawPopupAddTo.componentWillUnmount s = (Ok tt, s') /\
        _mbPopup (this s') = Some popup' /\
        parentNode s' = delete node (parentNode s) /\
        parentNode s' !! node = None /\
        new_calls s s' =
          match parentNode s !! node with
          | Some parent => [call_removeChild parent node]
          | None => []
          end
  | Throw e =>
      (DrawPopupAddTo.componentWillUnmount s).1 = Throw e /\
      parentNode (DrawPopupAddTo.componentWillUnmount s).2 = parentNode s
  end.
Proof.
  intros Hp Hn.
  destruct s as [[mb pn pr] pg ls par nn fr cl]. cbn in Hp, Hn. subst mb pn.
  unfold DrawPopupAddTo.componentWillUnmount, DrawPopupAddTo.mbPopup_remove,
    Node_removeChild. exec.
  destruct (DrawPopupAddTo.Popup_remove _) as [popup'|e]; cbn; [|now split].
  destruct (par !! node) as [parent|] eqn:Epar; cbn.
  - rewrite Epar. cbn. rewrite decide_True by reflexivity. cbn.
    eexists. split; [reflexivity|]. cbn. unfold new_calls. cbn.
    rewrite drop_app_length. repeat split. apply lookup_delete_eq.
  - eexists. split; [reflexivity|]. cbn. unfold new_calls. cbn.
    rewrite drop_all, delete_id by assumption. now repeat split.
Qed.

(** The cycle of the variant up to the comparison of the map, when the
    coordinate is unchanged. *)
Lemma addTo_cycle_unchanged (s : State) (map : MapId) (popup : Popup.t)
    (container content : Element) :
  Props.map (props (this s)) = Some map ->
  _mbPopup (this s) = Some popup ->
  Popup._container popup = Some container ->
  Popup._content popup = Some content ->
  _isLocationChanged s = (Ok false, s) ->
  DrawPopupAddTo._update_callback s =
    (updated ← (if decide (Some map = Popup._map popup)
                then mret false
                else DrawPopupAddTo.mbPopup_addTo map ;; mret true);
     (if negb updated then mbPopup_update else mret tt) ;;
     anchor ← _calculateAnchorPosition;
     popup ← thePopup;
     setPopup (Popup.set_options
                 (<["anchor" := VStr anchor]> (Popup.options popup)) popup) ;;
     mbPopup_update)
      (with_popup (Popup.set_options (merged_options s map popup) popup) s).
Proof.
  intros Hm Hp Hc Hct Hsame.
  set (p1 := Popup.set_options (merged_options s map popup) popup).
  unfold DrawPopupAddTo._update_callback.
  rewrite (bind_ok get _ s s s eq_refl).
  rewrite Hm.
  rewrite (bind_ok _ _ _ _ _ (thePopup_some s popup Hp)).
  rewrite Hc, Hct.
  rewrite (bind_ok _ _ _ _ _ (calculateOffset_ok s map Hm)).
  rewrite (bind_ok _ _ _ _ _ (setPopup_ok _ s)).
  fold (merged_options s map popup). fold p1.
  assert (Echg : _isLocationChanged (with_popup p1 s) = (Ok false, with_popup p1 s)).
  { pose proof (isLocationChanged_frame (with_popup p1 s)) as Hfrm.
    pose proof (isLocationChanged_ext (with_popup p1 s) s p1 popup eq_refl Hp) as Hext.
    rewrite Hsame in Hext. cbn in Hext.
    destruct (_isLocationChanged (with_popup p1 s)) as [r s0]. cbn in *. subst s0.
    now rewrite Hext. }
  rewrite (bind_ok _ _ _ _ _ Echg).
  rewrite (bind_ok (mret false) _ _ _ false eq_refl).
  rewrite (bind_ok thePopup _ _ _ _ (thePopup_some (with_popup p1 s) p1 eq_refl)).
  reflexivity.
Qed.

(** X19: in the variant with [addTo], a cycle that passes the guard, finds
    the coordinate unchanged and completes goes one of two ways.  When the
    popup is on the map of the props, the popup is refreshed before the
    anchor is computed and once more after it.  When it is on another map
    or on none, it is attached with [addTo], the forced refresh is
    skipped, and the only refresh is the one after the anchor is set.  In
    both the anchor comes from the position and container the first step
    left. *)
Theorem addTo_cycle_attaches_when_the_map_differs (s s' : State) (map : MapId)
    (popup : Popup.t) (container content : Element) :
  Props.map (props (this s)) = Some map ->
  _mbPopup (this s) = Some popup ->
  Popup._container popup = Some container ->
  Popup._content popup = Some content ->
  _isLocationChanged s = (Ok false, s) ->
  DrawPopupAddTo._update_callback s = (Ok tt, s') ->
  exists p2 pos container2 p3,
    (if decide (Some map = Popup._map popup)
     then Popup_update (page s)
            (Popup.set_options (merged_options s map popup) popup)
     else DrawPopupAddTo.Popup_addTo map (page s)
            (Popup.set_options (merged_options s map popup) popup)) = Ok p2 /\
    Popup._pos p2 = Some pos /\
    Popup._container p2 = Some container2 /\
    Popup_update (page s)
      (Popup.set_options
         (<["anchor" := VStr (anchor_of (page s) map pos container2)]>
            (Popup.options p2)) p2) = Ok p3 /\
    _mbPopup (this s') = Some p3 /\
    new_calls s s' =
      (if decide (Some map = Popup._map popup)
       then [call_popup_update; call_popup_update]
       else [call_popup_update]).
Proof.
  intros Hm Hp Hc Hct Hsame E.
  rewrite (addTo_cycle_unchanged s map popup container content Hm Hp Hc Hct Hsame) in E.
  set (p1 := Popup.set_options (merged_options s map popup) popup) in *.
  apply bind_ok_inv in E. destruct E as (updated & s2 & Eupd & E).
  apply bind_ok_inv_unit in E. destruct E as (s3 & Eforce & E).
  assert (exists p2,
            (if decide (Some map = Popup._map popup)
             then Popup_update (page s) p1
             else DrawPopupAddTo.Popup_addTo map (page s) p1) = Ok p2 /\
            s3 = with_popup p2
                   (set_calls (calls s ++ if decide (Some map = Popup._map popup)
                                          then [call_popup_update] else []) s))
    as (p2 & Estep & ->).
  { destruct (decide (Some map = Popup._map popup)) as [Hsamemap|Hdiff].
    - injection Eupd as <- <-. cbn in Eforce.
      rewrite (mbPopup_update_spec (with_popup p1 s) p1 eq_refl) in Eforce.
      cbn in Eforce.
      destruct (Popup_update (page s) p1) as [p2|e]; [|discriminate].
      injection Eforce as <-. now exists p2.
    - apply bind_ok_inv_unit in Eupd. destruct Eupd as (s2' & Eadd & Eret).
      injection Eret as <- <-. cbn in Eforce. injection Eforce as <-.
      rewrite (mbPopup_addTo_spec (with_popup p1 s) p1 map eq_refl) in Eadd.
      cbn in Eadd.
      destruct (DrawPopupAddTo.Popup_addTo map (page s) p1) as [p2|e]; [|discriminate].
      injection Eadd as <-. exists p2. split; [reflexivity|].
      destruct s. cbn. now rewrite app_nil_r. }
  set (s3 := with_popup p2 _) in E.
  destruct (update_callback_finish s3 s' p2 map eq_refl Hm E)
    as (pos & c2 & p3 & Hpos & Hc2 & _ & Eu3 & Hthis' & Hcl').
  cbn in Eu3, Hcl'.
  exists p2, pos, c2, p3.
  split; [exact Estep|]. split; [exact Hpos|]. split; [exact Hc2|].
  split; [exact Eu3|]. split; [now rewrite Hthis'|].
  unfold new_calls. rewrite Hcl', <- app_assoc, drop_app_length.
  now destruct (decide (Some map = Popup._map popup)).
Qed.

End AddToVariant.

(** ** Witnesses of the further properties *)

Section MoreWitnesses.
Import DrawPopup Notions Frames Fixture MoreFixture.
#[local] Existing Instance flat_map.
#[local] Existing Instance AddToFixture.flat_attach.

Lemma completion_eq {A : Type} (m : M A) (s : State) (a : A) :
  (m s).1 = Ok a -> m s = (Ok a, (m s).2).
Proof. destruct (m s) as [r s']. cbn. now intros ->. Qed.

Lemma flat_setLngLat_keeps_options (v : JsVal) (pg : Page) (p p' : Popup.t) :
  Popup_setLngLat v pg p = Ok p' -> Popup.options p' = Popup.options p.
Proof.
  cbn. destruct (convert v); [|discriminate]. intros [= <-]. unfold refresh. cbn.
  destruct (Popup._map p), (Popup._content p); reflexivity.
Qed.

Lemma flat_update_keeps_lngLat (pg : Page) (p p' : Popup.t) :
  Popup_update pg p = Ok p' -> Popup._lngLat p' = Popup._lngLat p.
Proof.
  cbn. intros [= <-]. unfold refresh.
  destruct p as [c ct tp [m|] [l|] ps op]; cbn; try reflexivity.
  now destruct ct.
Qed.

Lemma flat_setLngLat_stores (a b : number) (pg : Page) (p p' : Popup.t) :
  Popup_setLngLat (VArr [VNum a; VNum b]) pg p = Ok p' ->
  Popup._lngLat p' = Some (LngLat.mk a b).
Proof.
  cbn. intros [= <-]. unfold refresh.
  destruct p as [c ct tp [m|] l ps op]; cbn; try reflexivity.
  now destruct ct.
Qed.

Lemma first_frame_popup :
  exists popup : Popup.t,
    _mbPopup (this first_frame) = Some popup /\
    Popup._container popup = Some box /\
    Popup._content popup = Some box.
Proof. eexists. split; [compute_eq|]. split; reflexivity. Qed.

Lemma first_frame_map : Props.map (props (this first_frame)) = Some 7.
Proof. compute_eq. Qed.

Lemma first_frame_location :
  Props.location (props (this first_frame)) = VArr [VNum 100; VNum 380].
Proof. compute_eq. Qed.

Lemma first_frame_changed : _isLocationChanged first_frame = (Ok true, first_frame).
Proof. compute_eq. Qed.

Lemma first_frame_completes :
  _update_callback first_frame = (Ok tt, (_update_callback first_frame).2).
Proof. apply completion_eq. compute_eq. Qed.

Lemma pinned_on_9_popup :
  exists popup : Popup.t,
    _mbPopup (this pinned_on_9) = Some popup /\
    Popup._container popup = Some box /\
    Popup._content popup = Some box /\
    Popup._map popup = Some 7.
Proof. eexists. split; [compute_eq|]. repeat split. Qed.

Lemma pinned_on_9_map : Props.map (props (this pinned_on_9)) = Some 9.
Proof. compute_eq. Qed.

Lemma pinned_on_9_listeners : listeners pinned_on_9 = bindings (Some 7).
Proof. compute_eq. Qed.

Lemma pinned_on_9_unchanged : _isLocationChanged pinned_on_9 = (Ok false, pinned_on_9).
Proof. compute_eq. Qed.

Lemma cycle_without_geometry_is_noop_witness :
  (forall popup, _mbPopup (this constructed) = Some popup ->
     Popup._container popup = None \/ Popup._content popup = None) /\
  _update_callback constructed = (Ok tt, constructed).
Proof.
  assert (Hg : forall popup, _mbPopup (this constructed) = Some popup ->
                 Popup._container popup = None \/ Popup._content popup = None).
  { intros popup Hp. left. vm_compute in Hp. injection Hp as <-. reflexivity. }
  split; [exact Hg|].
  exact (cycle_without_geometry_is_noop constructed (or_intror Hg)).
Defined.

Lemma cycle_binds_the_map_of_the_props_witness :
  exists popup : Popup.t,
    Props.map (props (this pinned_on_9)) = Some 9 /\
    _mbPopup (this pinned_on_9) = Some popup /\
    Popup._container popup = Some box /\
    Popup._content popup = Some box /\
    listeners pinned_on_9 = bindings (Popup._map popup) /\
    listeners (_update_callback pinned_on_9).2 = bindings (Some 9).
Proof.
  destruct pinned_on_9_popup as (popup & Hp & Hc & Hct & Hmap).
  assert (Hb : listeners pinned_on_9 = bindings (Popup._map popup)).
  { rewrite Hmap. exact pinned_on_9_listeners. }
  exists popup.
  split; [exact pinned_on_9_map|]. split; [exact Hp|]. split; [exact Hc|].
  split; [exact Hct|]. split; [exact Hb|].
  exact (cycle_binds_the_map_of_the_props pinned_on_9 9 popup box box
           pinned_on_9_map Hp Hc Hct Hb).
Defined.

Lemma changed_location_is_set_once_witness :
  exists popup : Popup.t,
    Props.map (props (this first_frame)) = Some 7 /\
    _mbPopup (this first_frame) = Some popup /\
    Popup._container popup = Some box /\
    Popup._content popup = Some box /\
    _isLocationChanged first_frame = (Ok true, first_frame) /\
    _update_callback first_frame = (Ok tt, (_update_callback first_frame).2) /\
    popup_calls (new_calls first_frame (_update_callback first_frame).2) =
      [call_setLngLat (target_location first_frame); call_popup_update].
Proof.
  destruct first_frame_popup as (popup & Hp & Hc & Hct).
  exists popup.
  split; [exact first_frame_map|]. split; [exact Hp|]. split; [exact Hc|].
  split; [exact Hct|]. split; [exact first_frame_changed|].
  split; [exact first_frame_completes|].
  exact (proj1 (changed_location_is_set_once first_frame _ 7 popup box box
                  first_frame_map Hp Hc Hct first_frame_changed
                  first_frame_completes)).
Defined.

Lemma completed_cycle_options_witness :
  exists popup p3 : Popup.t,
    Props.map (props (this pinned)) = Some 7 /\
    _mbPopup (this pinned) = Some popup /\
    Popup._container popup = Some box /\
    Popup._content popup = Some box /\
    (forall pg p p', Popup_update pg p = Ok p' -> Popup.options p' = Popup.options p) /\
    (forall v pg p p', Popup_setLngLat v pg p = Ok p' ->
                       Popup.options p' = Popup.options p) /\
    _update_callback pinned = (Ok tt, (_update_callback pinned).2) /\
    _mbPopup (this (_update_callback pinned).2) = Some p3 /\
    Popup.options p3 !! "maxWidth" = Some (VStr DEFAULT_MAX_WIDTH).
Proof.
  destruct pinned_popup as (popup & Hp & Hc & Hct & _).
  destruct (completed_cycle_options pinned _ 7 popup box box
              pinned_map Hp Hc Hct flat_map_keeps_options
              flat_setLngLat_keeps_options pinned_cycle_completes)
    as (p3 & anchor & Hp3 & _ & Hcaller & _).
  exists popup, p3.
  split; [exact pinned_map|]. split; [exact Hp|]. split; [exact Hc|].
  split; [exact Hct|]. split; [exact flat_map_keeps_options|].
  split; [exact flat_setLngLat_keeps_options|].
  split; [exact pinned_cycle_completes|]. split; [exact Hp3|].
  apply Hcaller; [discriminate|compute_eq].
Defined.

Lemma map_removal_unbinds_witness :
  exists popup : Popup.t,
    _mbPopup (this pinned) = Some popup /\
    Popup._map popup = Some 7 /\
    listeners pinned = bindings (Some 7) /\
    listeners (Map_fire 7 remove pinned) = [].
Proof.
  destruct pinned_popup as (popup & Hp & _ & _ & _ & Hmap).
  exists popup.
  split; [exact Hp|]. split; [exact Hmap|]. split; [exact pinned_bound|].
  exact (proj1 (map_removal_unbinds pinned popup 7 Hp Hmap pinned_bound)).
Defined.

Lemma unmount_releases_the_map_witness :
  exists popup : Popup.t,
    _mbPopup (this pinned) = Some popup /\
    listeners pinned = bindings (Popup._map popup) /\
    listeners (componentWillUnmount pinned).2 = [].
Proof.
  destruct pinned_popup as (popup & Hp & _ & _ & _ & Hmap).
  assert (Hb : listeners pinned = bindings (Popup._map popup)).
  { rewrite Hmap. exact pinned_bound. }
  exists popup. split; [exact Hp|]. split; [exact Hb|].
  exact (proj1 (unmount_releases_the_map pinned popup Hp Hb)).
Defined.

Lemma mount_then_unmount_restores_the_tree_witness :
  parentNode (blank (props_at near_bottom)) !! nextNode (blank (props_at near_bottom))
    = None /\
  parentNode (componentWillUnmount
                (constructor (props_at near_bottom)
                   (blank (props_at near_bottom))).2).2 = ∅.
Proof.
  assert (Hfresh : parentNode (blank (props_at near_bottom))
                     !! nextNode (blank (props_at near_bottom)) = None)
    by reflexivity.
  split; [exact Hfresh|].
  destruct (mount_then_unmount_restores_the_tree (props_at near_bottom)
              (blank (props_at near_bottom)) Hfresh) as (_ & _ & _ & _ & Hpar & _).
  exact Hpar.
Defined.

Lemma isLocationChanged_raises_iff_witness :
  exists popup : Popup.t,
    _mbPopup (this pinned) = Some popup /\
    (_isLocationChanged pinned).2 = pinned.
Proof.
  destruct pinned_popup as (popup & Hp & _).
  exists popup. split; [exact Hp|].
  exact (proj1 (proj2 (isLocationChanged_raises_iff pinned popup Hp))).
Defined.

Lemma defaults_of_the_cycle_never_apply_witness :
  exists (popup : Popup.t) (rest : list Call),
    props (this pinned_without_location)
      = withDefaultProps (Props.mk (Some 7) VUndefined None) /\
    Props.map (props (this pinned_without_location)) = Some 7 /\
    _mbPopup (this pinned_without_location) = Some popup /\
    Popup._container popup = Some box /\
    Popup._content popup = Some box /\
    (_isLocationChanged pinned_without_location).1 = Ok true /\
    popup_calls (new_calls pinned_without_location
                   (_update_callback pinned_without_location).2) =
      call_setLngLat (Props.location (props (this pinned_without_location))) :: rest /\
    Props.location (props (this pinned_without_location)) = VArr [].
Proof.
  assert (E : props (this pinned_without_location)
              = withDefaultProps (Props.mk (Some 7) VUndefined None)) by compute_eq.
  assert (Hm : Props.map (props (this pinned_without_location)) = Some 7) by compute_eq.
  assert (Hpopup : exists popup, _mbPopup (this pinned_without_location) = Some popup /\
                                 Popup._container popup = Some box /\
                                 Popup._content popup = Some box).
  { eexists. split; [compute_eq|]. split; reflexivity. }
  destruct Hpopup as (popup & Hp & Hc & Hct).
  assert (Hchg : (_isLocationChanged pinned_without_location).1 = Ok true) by compute_eq.
  destruct (defaults_of_the_cycle_never_apply _ pinned_without_location 7 popup box box
              E Hm Hp Hc Hct Hchg) as ((rest & Hcalls) & Hloc).
  exists popup, rest.
  split; [exact E|]. split; [exact Hm|]. split; [exact Hp|]. split; [exact Hc|].
  split; [exact Hct|]. split; [exact Hchg|]. split; [exact Hcalls|].
  exact (Hloc eq_refl).
Defined.

Lemma completed_cycle_settles_the_coordinate_witness :
  exists popup : Popup.t,
    Props.map (props (this first_frame)) = Some 7 /\
    _mbPopup (this first_frame) = Some popup /\
    Popup._container popup = Some box /\
    Popup._content popup = Some box /\
    Props.location (props (this first_frame)) = VArr [VNum 100; VNum 380] /\
    PrimFloat.eqb 100 100 = true /\
    PrimFloat.eqb 380 380 = true /\
    (forall pg p p', Popup_update pg p = Ok p' ->
                     Popup._lngLat p' = Popup._lngLat p) /\
    (forall pg p p', Popup_setLngLat (VArr [VNum 100; VNum 380]) pg p = Ok p' ->
                     Popup._lngLat p' = Some (LngLat.mk 100 380)) /\
    _update_callback first_frame = (Ok tt, (_update_callback first_frame).2) /\
    _isLocationChanged (_update_callback first_frame).2
      = (Ok false, (_update_callback first_frame).2).
Proof.
  destruct first_frame_popup as (popup & Hp & Hc & Hct).
  exists popup.
  split; [exact first_frame_map|]. split; [exact Hp|]. split; [exact Hc|].
  split; [exact Hct|]. split; [exact first_frame_location|].
  split; [reflexivity|]. split; [reflexivity|].
  split; [exact flat_update_keeps_lngLat|].
  split; [exact (flat_setLngLat_stores 100 380)|].
  split; [exact first_frame_completes|].
  exact (completed_cycle_settles_the_coordinate first_frame _ 7 popup box box
           100 380 first_frame_map Hp Hc Hct first_frame_location
           eq_refl eq_refl flat_update_keeps_lngLat
           (flat_setLngLat_stores 100 380) first_frame_completes).
Defined.

Lemma addTo_unmount_witness :
  exists (popup : Popup.t) (s' : State),
    _mbPopup (this pinned) = Some popup /\
    portalNode (this pinned) = Some 1 /\
    DrawPopupAddTo.componentWillUnmount pinned = (Ok tt, s') /\
    parentNode s' !! 1 = None.
Proof.
  destruct pinned_popup as (popup & Hp & _).
  assert (Hn : portalNode (this pinned) = Some 1) by compute_eq.
  pose proof (addTo_unmount pinned popup 1 Hp Hn) as T.
  cbn [DrawPopupAddTo.Popup_remove AddToFixture.flat_attach] in T.
  destruct T as (s' & E & _ & _ & Hnone & _).
  exists popup, s'.
  split; [exact Hp|]. split; [exact Hn|]. split; [exact E|exact Hnone].
Defined.

Lemma pinned_on_9_addTo_completes :
  DrawPopupAddTo._update_callback pinned_on_9
    = (Ok tt, (DrawPopupAddTo._update_callback pinned_on_9).2).
Proof. apply completion_eq. compute_eq. Qed.

Lemma addTo_cycle_attaches_when_the_map_differs_witness :
  exists popup : Popup.t,
    Props.map (props (this pinned_on_9)) = Some 9 /\
    _mbPopup (this pinned_on_9) = Some popup /\
    Popup._container popup = Some box /\
    Popup._content popup = Some box /\
    _isLocationChanged pinned_on_9 = (Ok false, pinned_on_9) /\
    DrawPopupAddTo._update_callback pinned_on_9
      = (Ok tt, (DrawPopupAddTo._update_callback pinned_on_9).2) /\
    new_calls pinned_on_9 (DrawPopupAddTo._update_callback pinned_on_9).2
      = [call_popup_update].
Proof.
  destruct pinned_on_9_popup as (popup & Hp & Hc & Hct & Hmap).
  destruct (addTo_cycle_attaches_when_the_map_differs pinned_on_9 _ 9 popup box box
              pinned_on_9_map Hp Hc Hct pinned_on_9_unchanged
              pinned_on_9_addTo_completes)
    as (p2 & pos & c2 & p3 & _ & _ & _ & _ & _ & Hcalls).
  rewrite Hmap in Hcalls.
  destruct (decide (Some 9 = Some 7)) as [E|_]; [discriminate E|].
  exists popup.
  split; [exact pinned_on_9_map|]. split; [exact Hp|]. split; [exact Hc|].
  split; [exact Hct|]. split; [exact pinned_on_9_unchanged|].
  split; [exact pinned_on_9_addTo_completes|exact Hcalls].
Defined.

End MoreWitnesses.

Section MoreTableWitnesses.
Import TableStorage TableNotions StorageNotions.

Lemma setter_leaves_other_prefixes_witness :
  "indices" <> "nodes" /\
  tableStorageGetter sample_key "indices"
    (tableStorageSetter sample_key "nodes"
       (tableStorageSetter sample_key "indices" ∅ other_state).1 sample_state).1
  = read_back other_state.
Proof.
  assert (Hne : "indices" <> "nodes") by discriminate.
  split; [exact Hne|].
  rewrite (setter_leaves_other_prefixes sample_key "nodes" "indices" _ sample_state Hne).
  compute_eq.
Defined.

Lemma setter_leaves_other_properties_witness :
  ("columns" ∉ owned_fields) /\
  inherited "columns" = false /\
  own_name "nodes" = true /\
  nullish_or_object
    (entry_below (or (Storage.get storage_with_columns sample_key) (VObj ∅)) "nodes")
    = true /\
  get (tableStorageSetter sample_key "nodes" storage_with_columns sample_state).2
    ["nodes"; "columns"]
  = VNum 3.
Proof.
  assert (Hf : "columns" ∉ owned_fields).
  { unfold owned_fields. rewrite !not_elem_of_cons. repeat split; try discriminate.
    apply not_elem_of_nil. }
  assert (Hbelow : nullish_or_object
                     (entry_below (or (Storage.get storage_with_columns sample_key)
                                      (VObj ∅)) "nodes") = true) by compute_eq.
  split; [exact Hf|]. split; [reflexivity|]. split; [reflexivity|].
  split; [exact Hbelow|].
  rewrite (setter_leaves_other_properties sample_key "nodes" "columns"
             storage_with_columns sample_state Hf eq_refl eq_refl Hbelow).
  compute_eq.
Defined.

Lemma last_write_wins_witness :
  truthy (Storage.get ∅ sample_key) = false /\
  own_name "nodes" = true /\
  nullish_or_object (entry_below (or (Storage.get ∅ sample_key) (VObj ∅)) "nodes")
    = true /\
  tableStorageGetter sample_key "nodes"
    (tableStorageSetter sample_key "nodes"
       (tableStorageSetter sample_key "nodes" ∅ sample_state).1 other_state).1
  = read_back other_state.
Proof.
  split; [reflexivity|]. split; [reflexivity|]. split; [reflexivity|].
  exact (last_write_wins sample_key "nodes" ∅ sample_state other_state
           (or_introl eq_refl) eq_refl eq_refl).
Defined.

Lemma getter_of_a_missing_entry_witness :
  inherited "nodes" = false /\
  truthy (Storage.get ∅ sample_key) = false /\
  tableStorageGetter sample_key "nodes" ∅ = nothing_stored.
Proof.
  split; [reflexivity|]. split; [reflexivity|].
  exact (getter_of_a_missing_entry sample_key "nodes" ∅ eq_refl (or_introl eq_refl)).
Defined.

Lemma setter_on_a_primitive_entry_witness :
  number_storage !! sample_key = Some (VNum 5) /\
  truthy (VNum 5) = true /\
  isObject (VNum 5) = false /\
  tableStorageSetter sample_key "nodes" number_storage sample_state
    = (number_storage, VNum 5).
Proof.
  assert (He : number_storage !! sample_key = Some (VNum 5)) by compute_eq.
  split; [exact He|]. split; [reflexivity|]. split; [reflexivity|].
  exact (setter_on_a_primitive_entry sample_key "nodes" number_storage
           sample_state (VNum 5) He eq_refl eq_refl).
Defined.

End MoreTableWitnesses.
